(** * pynsot: callbacks used in handling command plugins

    A shallow embedding of [pynsot/commands/callbacks.py] (Python 2) and the
    properties of its argument-to-request transformations:

    - [transform_attributes]   (the attribute parser),
    - [process_constraints]    (the constraint extractor),
    - [process_bulk_add]       (the bulk record loader),
    - [get_resource_by_natural_key] (the natural-key resolver),
    - [list_subcommand]        (the nested-resource dispatcher).

    Python dictionaries are finite maps ([gmap]); the iteration order of a
    Python 2 [set] or [dict] is left abstract (class [IterOrder]); exceptions
    are values of type [exn]; the parse log kept on the root context is
    threaded through a small state-and-exception monad. *)

From Stdlib Require Import Ascii String.
From stdpp Require Import gmap strings list fin_maps pretty.

Open Scope string_scope.
Open Scope list_scope.

(** ** Python strings *)

Module PyStr.

(** [c] as a one-character string. *)
Definition of_ascii (c : ascii) : string := String c EmptyString.

(** The double quote character, as a string. *)
Definition dquote : string := of_ascii (ascii_of_nat 34).

(** [s.split(sep)] for a one-character separator: never the empty list,
    [''.split(',')] is [['']]. *)
Fixpoint split (sep : ascii) (s : string) : list string :=
  match s with
  | EmptyString => [EmptyString]
  | String c rest =>
      if Ascii.eqb c sep then EmptyString :: split sep rest
      else match split sep rest with
           | [] => [of_ascii c]
           | w :: ws => String c w :: ws
           end
  end.

(** [s.partition(sep)] for a one-character separator: the part before the
    first separator, the separator, the part after it; without a separator
    in [s] the result is [(s, '', '')]. *)
Fixpoint partition (sep : ascii) (s : string) : string * string * string :=
  match s with
  | EmptyString => (EmptyString, EmptyString, EmptyString)
  | String c rest =>
      if Ascii.eqb c sep then (EmptyString, of_ascii sep, rest)
      else let '(h, m, t) := partition sep rest in (String c h, m, t)
  end.

Definition islower (c : ascii) : bool :=
  let n := nat_of_ascii c in (97 <=? n)%nat && (n <=? 122)%nat.

Definition isupper (c : ascii) : bool :=
  let n := nat_of_ascii c in (65 <=? n)%nat && (n <=? 90)%nat.

Definition toupper (c : ascii) : ascii :=
  if islower c then ascii_of_nat (nat_of_ascii c - 32) else c.

Definition tolower (c : ascii) : ascii :=
  if isupper c then ascii_of_nat (nat_of_ascii c + 32) else c.

(** The loop of [str.title()] on a byte string: a cased character is put in
    upper case when the character before it is not cased and in lower case
    otherwise. *)
Fixpoint title_from (previous_is_cased : bool) (s : string) : string :=
  match s with
  | EmptyString => EmptyString
  | String c rest =>
      if islower c then
        String (if previous_is_cased then c else toupper c) (title_from true rest)
      else if isupper c then
        String (if previous_is_cased then tolower c else c) (title_from true rest)
      else String c (title_from false rest)
  end.

Definition title (s : string) : string := title_from false s.

(** ['%d' % n] for a line number. *)
Definition of_nat (n : nat) : string := pretty n.

(** [str(z)] for an integer. *)
Definition of_Z (z : Z) : string := pretty z.

End PyStr.

(** ** Python values *)

(** The values met in argument sequences, parameter mappings, file rows and
    API objects.  Dictionaries with string keys nest. *)
#[warnings="-register-all"]
Inductive pyval : Type :=
| VNone
| VBool (b : bool)
| VInt (z : Z)
| VStr (s : string)
| VList (l : list pyval)
| VDict (d : gmap string pyval).

(** A dictionary with string keys: an attribute map, a parameter mapping, an
    API object. *)
Abbreviation record := (gmap string pyval).

(** [isinstance(v, int)]; [bool] is a subclass of [int]. *)
Definition isinstance_int (v : pyval) : bool :=
  match v with
  | VInt _ | VBool _ => true
  | _ => false
  end.

(** [str(v)] for [v] an [int], the values [transform_attributes] casts. *)
Definition str (v : pyval) : string :=
  match v with
  | VInt z => PyStr.of_Z z
  | VBool true => "True"
  | VBool false => "False"
  | VStr s => s
  | _ => ""
  end.

(** ** Exceptions *)

Inductive exn : Type :=
| UsageError (msg : string)      (* click.UsageError *)
| BadParameter (msg : string)    (* click.BadParameter *)
| TypeError
| AttributeError
| KeyError (key : string)
| ValueError
| OtherError (name : string).    (* any other exception, by the name of its
                                    class: csv.Error, IOError, ... *)

#[global] Instance exn_eq_dec : EqDecision exn.
Proof. solve_decision. Defined.

Inductive result (A : Type) : Type :=
| Ok (a : A)
| Raise (e : exn).

Arguments Ok {A} a.
Arguments Raise {A} e.

#[global] Instance result_ret : MRet result := λ A a, Ok a.

#[global] Instance result_bind : MBind result := λ A B f r,
  match r with
  | Ok a => f a
  | Raise e => Raise e
  end.

(** [d[key]] *)
Definition getitem {K : Type} `{Countable K} (d : gmap K pyval) (key : K)
    (name : string) : result pyval :=
  match d !! key with
  | Some v => Ok v
  | None => Raise (KeyError name)
  end.

(** [[f(x) for x in l]]: the first exception ends the comprehension. *)
Fixpoint comprehension {A B : Type} (f : A → result B) (l : list A) : result (list B) :=
  match l with
  | [] => Ok []
  | x :: rest =>
      y ← f x;
      ys ← comprehension f rest;
      mret (y :: ys)
  end.

(** ** Computations on a state that may raise *)

Definition M (S A : Type) : Type := S → result A * S.

#[global] Instance M_ret {S : Type} : MRet (M S) := λ A a σ, (Ok a, σ).

#[global] Instance M_bind {S : Type} : MBind (M S) := λ A B f m σ,
  match m σ with
  | (Ok a, σ') => f a σ'
  | (Raise e, σ') => (Raise e, σ')
  end.

(** [raise e] leaves the state as it is when the exception is raised. *)
Definition raise {S A : Type} (e : exn) : M S A := λ σ, (Raise e, σ).

(** A computation without effect on the state. *)
Definition lift {S A : Type} (r : result A) : M S A := λ σ, (r, σ).

(** ** The parse log of the root context

    [parent._attributes] is created on first use: [None] is a root context
    without the attribute, [Some log] one that has it. *)

Definition parse_log : Type := option (list (string * pyval)).

(** [if not hasattr(parent, '_attributes'): parent._attributes = []] *)
Definition init_attributes : M parse_log unit := λ σ,
  match σ with
  | None => (Ok (), Some [])
  | Some _ => (Ok (), σ)
  end.

(** [parent._attributes.append(entry)] *)
Definition append_attribute (entry : string * pyval) : M parse_log unit := λ σ,
  match σ with
  | Some log => (Ok (), Some (log ++ [entry]))
  | None => (Raise AttributeError, σ)
  end.

(** ** Iteration order of sets and dictionaries

    A Python 2 [set] yields each of its elements once and a [dict] each of its
    items once, in an order the language leaves open.  The order is a
    parameter of the model; [set_iter l] is the order in which [set(l)] is
    iterated. *)

(** A row of a bulk file as [csv.DictReader] returns it: the keys are the
    field names, and [None] (the reader's [restkey]) for the extra fields of
    a long row. *)
Abbreviation row := (gmap (option string) pyval).

Class IterOrder : Type := {
  set_iter : list string → list string;
  set_iter_NoDup : ∀ l, NoDup (set_iter l);
  set_iter_elem : ∀ l x, x ∈ set_iter l ↔ x ∈ l;
  dict_iter : row → list (option string * pyval);
  dict_iter_perm : ∀ r : row, dict_iter r ≡ₚ map_to_list r
}.

(** One such order: the list without its repetitions for sets, the map's own
    enumeration for dictionaries. *)
#[global] Program Instance default_order : IterOrder := {|
  set_iter := remove_dups;
  dict_iter := map_to_list
|}.
Next Obligation. intros l. apply NoDup_remove_dups. Qed.
Next Obligation. intros l x. apply elem_of_remove_dups. Qed.
Next Obligation. reflexivity. Qed.

(** ** [transform_attributes]: attribute arguments into a dict *)

(** [for v in value]: the elements a value yields when iterated. *)
Definition elements (value : pyval) : result (list pyval) :=
  match value with
  | VList l => Ok l
  | VStr s => Ok (VStr ∘ PyStr.of_ascii <$> list_ascii_of_string s)
  | VDict d => Ok (VStr <$> (map_to_list d).*1)
  | VNone | VBool _ | VInt _ => Raise TypeError
  end.

(** [v.split(',')]: only strings have the method. *)
Definition split_commas (v : pyval) : result (list string) :=
  match v with
  | VStr s => Ok (PyStr.split "," s)
  | _ => Raise AttributeError
  end.

Definition invalid_attribute (attr : string) : string :=
  "Invalid attribute: " +:+ attr +:+ "; format should be key=value".

(** [key, _, val = attr.partition('=')] *)
Definition key_of (attr : string) : string := (PyStr.partition "=" attr).1.1.
Definition val_of (attr : string) : string := (PyStr.partition "=" attr).2.

(** The pair an accepted token stands for. *)
Definition pair_of (attr : string) : string * pyval := (key_of attr, VStr (val_of attr)).

(** The tokens of an argument: its elements split at the commas, in one
    list. *)
Definition tokens_of (value : pyval) : result (list string) :=
  let value := match value with VStr s => VList [VStr s] | _ => value end in
  values ← elements value ≫= comprehension split_commas;
  mret (concat values).

(** [attrs[key] = val] for each pair in turn. *)
Definition insert_pairs (pairs : list (string * pyval)) (attrs : record) : record :=
  foldl (λ m kv, <[kv.1 := kv.2]> m) attrs pairs.

Section Callbacks.

Context {order : IterOrder}.

(** [for attr in items], with the dict [attrs] built so far. *)
Fixpoint transform_items (items : list string) (attrs : record) : M parse_log record :=
  match items with
  | [] => mret attrs
  | attr :: rest =>
      let '(key, _, val) := PyStr.partition "=" attr in
      if String.eqb key "" then raise (UsageError (invalid_attribute attr))
      else
        (* Cast integers to strings (fix #24) *)
        let val := VStr val in
        let val := if isinstance_int val then VStr (str val) else val in
        _ ← append_attribute (key, val);
        transform_items rest (<[key := val]> attrs)
  end.

Definition transform_attributes (value : pyval) : M parse_log record :=
  (* If this is a simple string, make it a list. *)
  let value := match value with VStr s => VList [VStr s] | _ => value end in
  (* Flatten the attributes in case any of them are comma-separated. *)
  values ← lift (elements value ≫= comprehension split_commas);
  let items := set_iter (concat values) in
  (* Prepare the context object for storing attribute actions *)
  _ ← init_attributes;
  transform_items items ∅.

End Callbacks.

(** ** [process_site_id], [transform_event], [transform_resource_name] *)

Definition missing_site_id : string :=
  "Missing option " +:+ PyStr.dquote +:+ "-s" +:+ PyStr.dquote +:+ " / "
  +:+ PyStr.dquote +:+ "--site-id" +:+ PyStr.dquote +:+ ".".

(** The state is [ctx.obj.api.default_site]; [VNone] is Python's [None],
    for the value as for the default site. *)
Definition process_site_id (value : pyval) : M pyval pyval := λ default_site,
  match value with
  | VNone =>
      (* Try to get site_id from the app config, or complain that it's not set. *)
      match default_site with
      | VNone => (Raise (UsageError missing_site_id), default_site)
      | _ => (Ok default_site, default_site)
      end
  | _ =>
      (* Setting provided site_id as default_site. *)
      (Ok value, value)
  end.

(** Callback to transform event into title case. *)
Definition transform_event (value : option string) : option string :=
  PyStr.title <$> value.

(** Callback to transform resource_name into title case. *)
Definition transform_resource_name (value : option string) : option string :=
  PyStr.title <$> value.

(** ** [process_constraints]: constrained fields into a 'constraints' key

    The callback changes the dicts it is given in place and returns its
    argument.  Objects live in a store and are known by their address, so
    that a sequence naming one dict twice is told from a sequence of two
    equal dicts. *)

Abbreviation addr := nat (only parsing).
Abbreviation store := (gmap addr record).

(** The argument [data]: one dict, or a list of dicts. *)
Inductive data_ref : Type :=
| One (a : addr)
| Many (l : list addr).

(** [objects = data if isinstance(data, list) else [data]] *)
Definition objects_of (data : data_ref) : list addr :=
  match data with
  | One a => [a]
  | Many l => l
  end.

(** [for c_field in constraint_fields], with the dicts [constraints] and
    [obj] as they stand. *)
Fixpoint pop_fields (constraint_fields : list string) (constraints obj : record)
    : record * record :=
  match constraint_fields with
  | [] => (constraints, obj)
  | c_field :: rest =>
      match obj !! c_field with
      | Some v => (* constraints[c_field] = obj.pop(c_field) *)
          pop_fields rest (<[c_field := v]> constraints) (delete c_field obj)
      | None => (* except KeyError: continue *)
          pop_fields rest constraints obj
      end
  end.

(** The body of [for obj in objects]. *)
Definition constrain (constraint_fields : list string) (obj : record) : record :=
  let '(constraints, obj) := pop_fields constraint_fields ∅ obj in
  <["constraints" := VDict constraints]> obj.

Fixpoint constrain_objects (objects : list addr) (constraint_fields : list string)
    (σ : store) : store :=
  match objects with
  | [] => σ
  | obj :: rest =>
      constrain_objects rest constraint_fields (alter (constrain constraint_fields) obj σ)
  end.

Definition process_constraints (data : data_ref) (constraint_fields : list string)
    (σ : store) : data_ref * store :=
  let objects := objects_of data in
  (data, constrain_objects objects constraint_fields σ).

(** ** [csv.DictReader]

    The file handle is read through [csv.reader(value, delimiter=':')].  The
    model takes what that reader yields: each row as a list of fields (the
    empty list for an empty line), with the reader's [line_num] once the row
    has been read.  These rows are those of a file the reader reads to its
    end; a reading that the reader itself ends with an exception
    ([csv.Error], an error of the file handle) is a [reading], below. *)

Abbreviation csv_rows := (list (nat * list string)).

(** The rows of a text whose fields hold no quote: line [i] (from 1) split at
    the colons, an empty line giving the empty row. *)
Definition rows_of_lines (lines : list string) : csv_rows :=
  imap (λ i line, (S i, if String.eqb line "" then [] else PyStr.split ":" line)) lines.

(** [dict(pairs)]: a later pair replaces an earlier one with the same key. *)
Definition dict_of_pairs (pairs : list (option string * pyval)) : row :=
  foldl (λ d kv, <[kv.1 := kv.2]> d) ∅ pairs.

(** The dict [DictReader.next] builds from a row: the fields under the field
    names; the extra fields of a long row as a list under [restkey], which is
    [None]; the missing fields of a short row as [restval], which is [None]. *)
Definition make_row (fieldnames fields : list string) : row :=
  let d := dict_of_pairs (zip (Some <$> fieldnames) (VStr <$> fields)) in
  let lf := length fieldnames in
  let lr := length fields in
  if (lf <? lr)%nat then <[None := VList (VStr <$> drop lf fields)]> d
  else if (lr <? lf)%nat then
    foldl (λ d key, <[Some key := VNone]> d) d (drop lr fieldnames)
  else d.

(** [for r in reader], after the first row has been taken as the field
    names: empty rows are passed over, every other row gives a dict, and
    [reader.line_num] is then the line number the underlying reader has
    reached. *)
Fixpoint DictReader_rows (fieldnames : list string) (rows : csv_rows) : list (nat * row) :=
  match rows with
  | [] => []
  | (line_num, fields) :: rest =>
      match fields with
      | [] => DictReader_rows fieldnames rest
      | _ => (line_num, make_row fieldnames fields) :: DictReader_rows fieldnames rest
      end
  end.

(** [reader.fieldnames]: the first row the underlying reader yields (of an
    empty file, which has no row to compare with them, the empty list). *)
Definition DictReader_fieldnames (rows : csv_rows) : list string :=
  match rows with
  | [] => []
  | (_, fieldnames) :: _ => fieldnames
  end.

(** What [for r in reader] goes through: [reader.line_num] and [r]. *)
Definition DictReader_iter (rows : csv_rows) : list (nat * row) :=
  match rows with
  | [] => []
  | (_, fieldnames) :: rest => DictReader_rows fieldnames rest
  end.

(** ** [process_bulk_add]: objects from a colon-delimited file *)

(** Objects that do not have attributes *)
Definition NO_ATTRIBUTES : list string := ["attributes"].

(** [ast.literal_eval(v)] for [v] a single name, which is what a string whose
    title-cased form is ['True'] or ['False'] is: the names [True], [False]
    and [None] have a value, any other name is a malformed string. *)
Definition literal_eval (v : string) : result pyval :=
  if String.eqb v "True" then Ok (VBool true)
  else if String.eqb v "False" then Ok (VBool false)
  else if String.eqb v "None" then Ok VNone
  else Raise ValueError.

Definition wrong_number_of_fields (lineno : nat) : string :=
  "File has wrong number of fields on line " +:+ PyStr.of_nat lineno.

Definition error_parsing_file (lineno : nat) : string :=
  "Error parsing file on line " +:+ PyStr.of_nat lineno.

(** [v.title() in ('True', 'False')] *)
Definition looks_boolean (v : string) : bool :=
  bool_decide (PyStr.title v ∈ ["True"; "False"]).

(** [for k, v in r.iteritems()], with the row [r] as it stands. *)
Fixpoint coerce_booleans (lineno : nat) (items : list (option string * pyval)) (r : row)
    : result row :=
  match items with
  | [] => Ok r
  | (k, v) :: rest =>
      match v with
      | VDict _ => (* Don't evaluate dicts *)
          coerce_booleans lineno rest r
      | VStr s =>
          if looks_boolean s then
            b ← literal_eval s;
            coerce_booleans lineno rest (<[k := b]> r)
          else coerce_booleans lineno rest r
      | _ => Raise (BadParameter (error_parsing_file lineno))
      end
  end.

(** What the loop makes of a value it goes past without raising. *)
Definition coerced (v : pyval) : pyval :=
  match v with
  | VStr s =>
      if looks_boolean s then
        match literal_eval s with
        | Ok b => b
        | Raise _ => v
        end
      else v
  | _ => v
  end.

Section BulkAdd.

Context {order : IterOrder}.

(** [ctx.obj.parent_resource_name], the object name (e.g. 'devices'). *)
Variable parent_resource_name : string.

(** The body of [for r in reader], up to [objects.append(r)]. *)
Definition process_row (fieldnames : list string) (lineno : nat) (r : row)
    : M parse_log row :=
  (* Make sure the file is correctly formatted. *)
  if negb (size r =? length fieldnames)%nat then
    raise (BadParameter (wrong_number_of_fields lineno))
  else
    (* Transform attributes for eligible resource types *)
    r ← (if bool_decide (parent_resource_name ∉ NO_ATTRIBUTES) then
           value ← lift (getitem r (Some "attributes") "attributes");
           attributes ← transform_attributes value;
           mret (<[Some "attributes" := VDict attributes]> r)
         else mret r);
    (* Transform True, False into booleans *)
    lift (coerce_booleans lineno (dict_iter r) r).

Fixpoint bulk_loop (fieldnames : list string) (rows : list (nat * row))
    (objects : list row) : M parse_log (list row) :=
  match rows with
  | [] => mret objects
  | (lineno, r) :: rest =>
      r ← process_row fieldnames lineno r;
      bulk_loop fieldnames rest (objects ++ [r])
  end.

(** [value] is [None] or an open file handle. *)
Definition process_bulk_add (value : option csv_rows) : M parse_log (option (list row)) :=
  match value with
  | None => mret None
  | Some rows =>
      objects ← bulk_loop (DictReader_fieldnames rows) (DictReader_iter rows) [];
      (* Return a list of dicts *)
      mret (Some objects)
  end.

(** A reading of the file handle as it may go: the rows the underlying
    reader yields, and the exception it raises after them, if it raises one
    ([csv.Error] on a line it cannot parse, an error of the file handle);
    [None] is the end of the file. *)
Definition reading : Type := csv_rows * option exn.

(** [process_bulk_add] on such a reading.  An exception of the reader leaves
    [for r in reader] where the next row was to be read: the rows read
    before have gone through the body of the loop, and nothing is
    returned. *)
Definition process_bulk_add_reading (value : option reading)
    : M parse_log (option (list row)) :=
  match value with
  | None => mret None
  | Some (rows, reading_end) =>
      objects ← bulk_loop (DictReader_fieldnames rows) (DictReader_iter rows) [];
      match reading_end with
      | Some e => raise e
      | None =>
          (* Return a list of dicts *)
          mret (Some objects)
      end
  end.

End BulkAdd.

(** [obj] is the record the body of the loop makes of the row [lr.2] read at
    line [lr.1]. *)
Definition transformed {order : IterOrder} (parent_resource_name : string)
    (fieldnames : list string) (lr : nat * row) (obj : row) : Prop :=
  ∃ σ σ', process_row parent_resource_name fieldnames lr.1 lr.2 σ = (Ok obj, σ').

(** The body of the loop raises [e] on the row [lr.2] read at line [lr.1]. *)
Definition rejected {order : IterOrder} (parent_resource_name : string)
    (fieldnames : list string) (lr : nat * row) (e : exn) : Prop :=
  ∃ σ σ', process_row parent_resource_name fieldnames lr.1 lr.2 σ = (Raise e, σ').

(** The file of a header [name:cidr:attributes] and a row of two fields. *)
Definition short_row_file : csv_rows :=
  rows_of_lines ["name:cidr:attributes"; "foo:10.0.0.0/8"].

(** A file with a field [TRUE]. *)
Definition uppercase_file : csv_rows :=
  rows_of_lines ["name:attributes"; "TRUE:owner=netops"].

(** ** [get_resource_by_natural_key] and [list_subcommand] *)

(** An API resource client object: [getattr(app.api, name)], and
    [getattr(parent(id), name)] for a nested resource. *)
Inductive resource : Type :=
| Collection (name : string)
| Nested (parent : resource) (id : pyval) (name : string).

(** The calls made on the application object [ctx.obj], which are recorded
    in the order they are made: [app.rebase], [app.get_single_object] and
    [app.list].  A call is recorded whether it returns or raises. *)
Inductive call : Type :=
| Rebase (data : record)
| LookupCall (data : record) (res : option resource)
| ListCall (data : record) (display_fields : list string) (res : resource).

(** What [list_subcommand] reads and writes through [ctx]: the parameter
    mappings of the parent command and of the command itself, which are two
    dict objects; the command's name; the fields of the application object
    [ctx.obj]; the calls made on it so far. *)
Record context : Type := MkContext {
  parent_params : record;
  params : record;
  info_name : string;
  app_parent_resource_name : string;
  app_resource_name : option string;
  calls : list call
}.

Definition set_parent_params (d : record) (ctx : context) : context :=
  MkContext d (params ctx) (info_name ctx) (app_parent_resource_name ctx)
          (app_resource_name ctx) (calls ctx).

Definition set_app_resource_name (name : string) (ctx : context) : context :=
  MkContext (parent_params ctx) (params ctx) (info_name ctx) (app_parent_resource_name ctx)
          (Some name) (calls ctx).

Definition add_call (c : call) (ctx : context) : context :=
  MkContext (parent_params ctx) (params ctx) (info_name ctx) (app_parent_resource_name ctx)
          (app_resource_name ctx) (calls ctx ++ [c]).

Definition no_matching (resource_name : string) : string :=
  "No matching " +:+ resource_name +:+ " found; try lookup using option "
  +:+ PyStr.dquote +:+ "-i" +:+ PyStr.dquote +:+ " / "
  +:+ PyStr.dquote +:+ "--id" +:+ PyStr.dquote +:+ ".".

Section Dispatch.

(** [ctx.obj.get_single_object(data, resource=resource)], the Lookup
    Service: an object, [None], or an exception of its own. *)
Variable get_single_object : record → option resource → result (option record).

(** [app.rebase(data)]: whether it returns or raises, and what it leaves in
    the mapping it is given. *)
Variable rebase : record → result unit * record.

(** Getting a resource client object, [getattr(app.api, name)] for
    [Collection name] and [getattr(parent(id), name)] for
    [Nested parent id name]: the exception the API client raises for it, if
    it raises one. *)
Variable resource_error : resource → option exn.

(** [app.list(data, display_fields=display_fields, resource=resource)], the
    Listing Service: whether it returns or raises, and what it leaves in the
    mapping it is given. *)
Variable list_objects : record → list string → resource → result unit * record.

Definition get_resource_by_natural_key (data : record) (resource_name : string)
    (res : option resource) : result pyval :=
  (* Look up the object by natural key (e.g. cidr) *)
  obj ← get_single_object data res;
  (* If the object was found, get its id *)
  resource_id ← match obj with
                | Some obj => getitem obj "id" "id"
                | None => Ok VNone
                end;
  (* If it's not found, error out. *)
  match resource_id with
  | VNone => Raise (UsageError (no_matching resource_name))
  | _ => Ok resource_id
  end.

(** Gather our args from our parent and ourself: [data] is the parent's
    mapping itself, updated with the command's own and without its 'id'. *)
Definition gather_params : M context pyval := λ ctx,
  (* data = ctx.parent.params; data.update(ctx.params) *)
  let ctx := set_parent_params (params ctx ∪ parent_params ctx) ctx in
  (* parent_resource_id = data.pop('id') *)
  match parent_params ctx !! "id" with
  | Some v => (Ok v, set_parent_params (delete "id" (parent_params ctx)) ctx)
  | None => (Raise (KeyError "id"), ctx)
  end.

(** [app.rebase(data)], on the mapping [data] names. *)
Definition app_rebase : M context unit := λ ctx,
  let data := parent_params ctx in
  ((rebase data).1, set_parent_params (rebase data).2 (add_call (Rebase data) ctx)).

(** [getattr(app.api, parent_resource_name)] and
    [getattr(parent_resource(parent_resource_id), my_name)]. *)
Definition get_resource (res : resource) : M context resource := λ ctx,
  match resource_error res with
  | Some e => (Raise e, ctx)
  | None => (Ok res, ctx)
  end.

(** [if my_name is not None: app.resource_name = my_name
     else: my_name = ctx.info_name] *)
Definition choose_name (my_name : option string) : M context string := λ ctx,
  match my_name with
  | Some name => (Ok name, set_app_resource_name name ctx)
  | None => (Ok (info_name ctx), ctx)
  end.

(** [if parent_resource_id is None: parent_resource_id =
     get_resource_by_natural_key(ctx, data, parent_resource_name,
     parent_resource)] *)
Definition provide_id (parent_resource_id : pyval) (parent_resource_name : string)
    (parent_resource : resource) : M context pyval := λ ctx,
  match parent_resource_id with
  | VNone =>
      let data := parent_params ctx in
      (get_resource_by_natural_key data parent_resource_name (Some parent_resource),
       add_call (LookupCall data (Some parent_resource)) ctx)
  | _ => (Ok parent_resource_id, ctx)
  end.

(** [app.list(data, display_fields=display_fields, resource=my_resource)] *)
Definition app_list (display_fields : list string) (my_resource : resource)
    : M context unit := λ ctx,
  let data := parent_params ctx in
  ((list_objects data display_fields my_resource).1,
   set_parent_params (list_objects data display_fields my_resource).2
     (add_call (ListCall data display_fields my_resource) ctx)).

Definition list_subcommand (display_fields : list string) (my_name : option string)
    : M context unit :=
  parent_resource_id ← gather_params;
  (* Prepare the app and rebase the API to include site_id. *)
  _ ← app_rebase;
  parent_resource_name ← (λ ctx, (Ok (app_parent_resource_name ctx), ctx)) : M context string;
  my_name ← choose_name my_name;
  (* e.g. /api/sites/1/networks/ *)
  parent_resource ← get_resource (Collection parent_resource_name);
  (* Make sure that parent_resource_id is provided. *)
  parent_resource_id ← provide_id parent_resource_id parent_resource_name parent_resource;
  (* e.g. /api/sites/1/networks/5/supernets/ *)
  my_resource ← get_resource (Nested parent_resource parent_resource_id my_name);
  app_list display_fields my_resource.

End Dispatch.

(** An application whose [rebase] and [list] return and leave the mapping as
    it is, and whose API client has every resource. *)
Definition rebase_returns (data : record) : result unit * record := (Ok (), data).

Definition every_resource (res : resource) : option exn := None.

Definition list_returns (data : record) (display_fields : list string) (res : resource)
    : result unit * record := (Ok (), data).

(** The context of [nsot networks list -c 10.0.0.0/8 supernets --limit 5]:
    the parent command was given no id. *)
Definition nested_listing_ctx : context :=
  MkContext {[ "id" := VNone; "cidr" := VStr "10.0.0.0/8" ]} {[ "limit" := VInt 5 ]}
          "supernets" "networks" None [].

(** A store of two dicts, [{a: 1}] and [{b: 2}]. *)
Definition two_records : store :=
  {[ 0 := {[ "a" := VInt 1 ]}; 1 := {[ "b" := VInt 2 ]} ]}.

(** [s.lower()] on a byte string. *)
Definition str_lower (s : string) : string :=
  string_of_list_ascii (PyStr.tolower <$> list_ascii_of_string s).

(** Empty lines of a file, by their line numbers. *)
Definition blank_lines (line_nums : list nat) : csv_rows := (λ n, (n, [])) <$> line_nums.

(** * Properties *)

(** ** Strings *)

Section Strings.

Variable sep : ascii.

(** [partition] cuts the string at its first separator. *)
Lemma partition_concat s :
  s = (PyStr.partition sep s).1.1 +:+ (PyStr.partition sep s).1.2 +:+ (PyStr.partition sep s).2.
Proof.
  induction s as [|c s IH]; [done|]. cbn.
  destruct (Ascii.eqb_spec c sep) as [->|Hne]; [done|].
  destruct (PyStr.partition sep s) as [[h m] t]. cbn in *. by rewrite IH at 1.
Qed.

Lemma partition_head s : sep ∉ list_ascii_of_string (PyStr.partition sep s).1.1.
Proof.
  induction s as [|c s IH]; cbn; [apply not_elem_of_nil|].
  destruct (Ascii.eqb_spec c sep) as [->|Hne]; [apply not_elem_of_nil|].
  destruct (PyStr.partition sep s) as [[h m] t]. cbn in *.
  rewrite not_elem_of_cons. by split; [congruence|].
Qed.

(** Without a separator the string is all head. *)
Lemma partition_separator s :
  (PyStr.partition sep s).1.2 = PyStr.of_ascii sep
  ∨ ((sep ∉ list_ascii_of_string s) ∧ PyStr.partition sep s = (s, "", "")).
Proof.
  induction s as [|c s IH]; cbn; [right; split; [apply not_elem_of_nil|done]|].
  destruct (Ascii.eqb_spec c sep) as [->|Hne]; [by left|].
  destruct (PyStr.partition sep s) as [[h m] t]. cbn in *.
  destruct IH as [->|[Hnot [= -> -> ->]]]; [by left|right].
  rewrite not_elem_of_cons. split; [|done]. by split; [congruence|].
Qed.

(** [split] cuts the string at every separator: the pieces have none and
    joined with it give the string back. *)
Lemma split_nonempty s : PyStr.split sep s ≠ [].
Proof.
  destruct s as [|c s]; cbn; [done|].
  destruct (Ascii.eqb c sep); [done|]. by destruct (PyStr.split sep s).
Qed.

Lemma split_join s : String.concat (PyStr.of_ascii sep) (PyStr.split sep s) = s.
Proof.
  induction s as [|c s IH]; [done|]. cbn [PyStr.split].
  pose proof (split_nonempty s) as Hne.
  destruct (Ascii.eqb_spec c sep) as [->|Hc].
  - destruct (PyStr.split sep s) as [|w ws]; [done|]. cbn in *. by rewrite IH.
  - destruct (PyStr.split sep s) as [|w ws]; [done|].
    rewrite <- IH. by destruct ws.
Qed.

Lemma split_pieces s : Forall (λ w, sep ∉ list_ascii_of_string w) (PyStr.split sep s).
Proof.
  induction s as [|c s IH]; cbn.
  - repeat constructor. apply not_elem_of_nil.
  - destruct (Ascii.eqb_spec c sep) as [->|Hc].
    + constructor; [apply not_elem_of_nil|done].
    + destruct (PyStr.split sep s) as [|w ws].
      * repeat constructor. cbn. rewrite not_elem_of_cons. split; [congruence|apply not_elem_of_nil].
      * apply Forall_cons in IH as [Hw Hws]. constructor; [|done].
        cbn. rewrite not_elem_of_cons. by split; [congruence|].
Qed.

(** A string without the separator is one piece. *)
Lemma split_whole s : sep ∉ list_ascii_of_string s → PyStr.split sep s = [s].
Proof.
  induction s as [|c s IH]; [done|]. cbn. intros [Hc Hs]%not_elem_of_cons.
  destruct (Ascii.eqb_spec c sep) as [->|_]; [done|]. by rewrite IH.
Qed.

End Strings.

(** A key read by [partition] holds no '='. *)
Lemma key_of_no_equals attr : ("=" : ascii) ∉ list_ascii_of_string (key_of attr).
Proof. apply partition_head. Qed.

(** The strings taken for booleans, in a few spellings. *)
Example looks_boolean_spellings :
  looks_boolean "True" = true ∧ looks_boolean "False" = true ∧
  looks_boolean "TRUE" = true ∧ looks_boolean "true" = true ∧
  looks_boolean "fALSE" = true ∧ looks_boolean "yes" = false ∧
  looks_boolean "True " = false ∧ looks_boolean "" = false.
Proof. by repeat split. Qed.

(** ** The attribute parser *)

Section AttributeParser.

Context {order : IterOrder}.

Lemma partition_pair attr :
  PyStr.partition "=" attr = (key_of attr, (PyStr.partition "=" attr).1.2, val_of attr).
Proof. unfold key_of, val_of. by destruct (PyStr.partition "=" attr) as [[??]?]. Qed.

Lemma transform_items_step attr rest attrs log :
  transform_items (attr :: rest) attrs (Some log) =
    if String.eqb (key_of attr) "" then
      (Raise (UsageError (invalid_attribute attr)), Some log)
    else transform_items rest (<[key_of attr := VStr (val_of attr)]> attrs)
           (Some (log ++ [pair_of attr])).
Proof.
  cbn [transform_items]. rewrite (partition_pair attr).
  destruct (String.eqb (key_of attr) ""); reflexivity.
Qed.

(** When every token has a key, every pair is logged and inserted. *)
Lemma transform_items_accept items attrs log :
  Forall (λ attr, key_of attr ≠ "") items →
  transform_items items attrs (Some log) =
    (Ok (insert_pairs (pair_of <$> items) attrs), Some (log ++ (pair_of <$> items))).
Proof.
  intros Hall. revert attrs log.
  induction Hall as [|attr rest Hkey _ IH]; intros attrs log.
  - cbn. by rewrite app_nil_r.
  - rewrite transform_items_step.
    apply String.eqb_neq in Hkey. rewrite Hkey, IH.
    cbn. by rewrite <- app_assoc.
Qed.

(** The first token without a key ends the loop; the pairs before it have
    been logged. *)
Lemma transform_items_reject items attrs log :
  Exists (λ attr, key_of attr = "") items →
  ∃ done attr rest,
    items = done ++ attr :: rest ∧ Forall (λ a, key_of a ≠ "") done ∧
    key_of attr = "" ∧
    transform_items items attrs (Some log) =
      (Raise (UsageError (invalid_attribute attr)), Some (log ++ (pair_of <$> done))).
Proof.
  revert attrs log. induction items as [|a items IH]; intros attrs log Hex.
  - by apply Exists_nil in Hex.
  - destruct (decide (key_of a = "")) as [Ha|Ha].
    + exists [], a, items. rewrite transform_items_step.
      apply String.eqb_eq in Ha as Hb. rewrite Hb.
      split_and!; [done|constructor|done|by rewrite app_nil_r].
    + apply Exists_cons in Hex as [?|Hex]; [done|].
      destruct (IH (<[key_of a := VStr (val_of a)]> attrs) (log ++ [pair_of a]) Hex)
        as (done & attr & rest & -> & Hdone & Hattr & Heq).
      exists (a :: done), attr, rest. rewrite transform_items_step.
      apply String.eqb_neq in Ha as Hb. rewrite Hb, Heq.
      split_and!; [done|by constructor|done|].
      cbn. by rewrite <- app_assoc.
Qed.

(** [transform_attributes] is [transform_items] on the set of the tokens,
    on a log that exists. *)
Lemma transform_attributes_tokens value σ :
  transform_attributes value σ =
    match tokens_of value with
    | Ok tokens => transform_items (set_iter tokens) ∅ (Some (default [] σ))
    | Raise e => (Raise e, σ)
    end.
Proof.
  unfold transform_attributes, tokens_of.
  destruct (elements _ ≫= comprehension split_commas) as [values|e]; [|done].
  by destruct σ.
Qed.

End AttributeParser.

Section AttributeParserClaims.

Context {order : IterOrder}.

Lemma tokens_of_strings (l : list string) :
  tokens_of (VList (VStr <$> l)) = Ok (concat (PyStr.split "," <$> l)).
Proof.
  unfold tokens_of. cbn.
  assert (comprehension split_commas (VStr <$> l) = Ok (PyStr.split "," <$> l)) as ->; [|done].
  induction l as [|s l IH]; [done|]. cbn. by rewrite IH.
Qed.

Lemma insert_pairs_app ps qs attrs :
  insert_pairs (ps ++ qs) attrs = insert_pairs qs (insert_pairs ps attrs).
Proof. apply foldl_app. Qed.

(** The keys of the map are the keys it had and the keys of the pairs. *)
Lemma insert_pairs_is_Some ps (attrs : record) key :
  is_Some (insert_pairs ps attrs !! key) ↔ is_Some (attrs !! key) ∨ key ∈ ps.*1.
Proof.
  revert attrs. induction ps as [|[k v] ps IH]; intros attrs; cbn.
  - rewrite elem_of_nil. tauto.
  - fold (insert_pairs ps (<[k:=v]> attrs)). rewrite IH, elem_of_cons.
    rewrite lookup_insert_is_Some. destruct (decide (k = key)) as [->|]; cbn; intuition congruence.
Qed.

(** A value of the map is the value of one of the pairs, or was there. *)
Lemma insert_pairs_lookup ps (attrs : record) key v :
  insert_pairs ps attrs !! key = Some v → attrs !! key = Some v ∨ (key, v) ∈ ps.
Proof.
  revert attrs. induction ps as [|[k w] ps IH]; intros attrs; cbn.
  - by left.
  - fold (insert_pairs ps (<[k:=w]> attrs)). intros [H|H]%IH.
    + rewrite lookup_insert in H. case_decide; simplify_eq.
      * right. apply elem_of_cons. by left.
      * by left.
    + right. apply elem_of_cons. by right.
Qed.

(** The pair inserted last for a key is the one the map holds. *)
Lemma insert_pairs_last ps key v qs (attrs : record) :
  key ∉ qs.*1 → insert_pairs (ps ++ (key, v) :: qs) attrs !! key = Some v.
Proof.
  intros Hnot. rewrite insert_pairs_app. cbn.
  fold (insert_pairs qs (<[key:=v]> (insert_pairs ps attrs))).
  destruct (insert_pairs qs (<[key:=v]> (insert_pairs ps attrs)) !! key) as [w|] eqn:Hw.
  - apply insert_pairs_lookup in Hw as [Hw|Hw].
    + by rewrite lookup_insert_eq in Hw.
    + destruct Hnot. apply list_elem_of_fmap. by exists (key, w).
  - assert (is_Some (insert_pairs qs (<[key:=v]> (insert_pairs ps attrs)) !! key)) as [? ?];
      [|congruence].
    apply insert_pairs_is_Some. left. rewrite lookup_insert_eq. by eexists.
Qed.

Lemma key_of_pairs items : (pair_of <$> items).*1 = key_of <$> items.
Proof. rewrite <- list_fmap_compose. done. Qed.

(** What a call does, by whether a token lacks its key. *)
Lemma transform_attributes_cases value σ :
  match tokens_of value with
  | Raise e => transform_attributes value σ = (Raise e, σ)
  | Ok tokens =>
      let items := set_iter tokens in
      (Forall (λ attr, key_of attr ≠ "") items ∧
       transform_attributes value σ =
         (Ok (insert_pairs (pair_of <$> items) ∅),
          Some (default [] σ ++ (pair_of <$> items))))
      ∨ (∃ done attr rest,
           items = done ++ attr :: rest ∧ key_of attr = "" ∧
           transform_attributes value σ =
             (Raise (UsageError (invalid_attribute attr)),
              Some (default [] σ ++ (pair_of <$> done))))
  end.
Proof.
  rewrite transform_attributes_tokens.
  destruct (tokens_of value) as [tokens|e]; [|done]. cbn zeta.
  destruct (decide (Exists (λ attr, key_of attr = "") (set_iter tokens))) as [Hex|Hno].
  - right. destruct (transform_items_reject _ ∅ (default [] σ) Hex)
      as (done & attr & rest & ? & ? & ? & ?). by exists done, attr, rest.
  - left. apply not_Exists_Forall in Hno; [|apply _].
    split; [done|]. by apply transform_items_accept.
Qed.

Lemma comprehension_split_raise l e :
  comprehension split_commas l = Raise e → e = AttributeError.
Proof.
  induction l as [|v l IH]; cbn; [done|].
  destruct v; cbn; try by intros [= <-].
  destruct (comprehension split_commas l); cbn; [done|].
  intros [= <-]. by apply IH.
Qed.

(** Before the tokens are there, only a [TypeError] (the argument cannot be
    iterated) or an [AttributeError] (an element has no [split]) is
    raised. *)
Lemma tokens_of_raise value e :
  tokens_of value = Raise e → e = TypeError ∨ e = AttributeError.
Proof.
  unfold tokens_of.
  destruct (elements _) as [l|e'] eqn:Hel; cbn.
  - destruct (comprehension split_commas l) eqn:Hc; cbn; [done|].
    intros [= <-]. right. by eapply comprehension_split_raise.
  - intros [= <-]. left. by destruct value; simplify_eq/=.
Qed.

(** C10: whenever the attribute parser succeeds, every key of the returned
    map is a non-empty string; the parser raises its [UsageError] (the
    spec's ValidationError) exactly when some flattened token has an empty
    part before its first '=', and on a sequence of strings that is its only
    way to fail. *)
Theorem transform_attributes_keys_nonempty value σ :
  (∀ attrs σ', transform_attributes value σ = (Ok attrs, σ') →
     ∀ key, is_Some (attrs !! key) → key ≠ "")
  ∧ ((∃ msg σ', transform_attributes value σ = (Raise (UsageError msg), σ')) ↔
     (∃ tokens attr, tokens_of value = Ok tokens ∧ attr ∈ tokens ∧ key_of attr = ""))
  ∧ (∀ l : list string, value = VList (VStr <$> l) →
     (∃ e σ', transform_attributes value σ = (Raise e, σ')) ↔
     (∃ attr, attr ∈ concat (PyStr.split "," <$> l) ∧ key_of attr = "")).
Proof.
  pose proof (transform_attributes_cases value σ) as Hcases.
  destruct (tokens_of value) as [tokens|e] eqn:Htokens.
  - destruct Hcases as [[Hall Hok]|(done & attr & rest & Hitems & Hkey & Hraise)].
    + (* every token has a key *)
      assert (Hnone : ∀ attr, attr ∈ tokens → key_of attr ≠ "").
      { intros attr Hin%set_iter_elem. by eapply Forall_forall in Hall. }
      rewrite Hok. split_and!.
      * intros attrs σ' [= <- <-] key Hkey.
        apply insert_pairs_is_Some in Hkey as [[? Hkey]|Hkey];
          [by rewrite lookup_empty in Hkey|].
        rewrite key_of_pairs in Hkey. apply list_elem_of_fmap in Hkey as (attr & -> & Hin).
        by eapply Forall_forall in Hall.
      * split; [by intros (? & ? & ?)|].
        intros (? & attr & [= <-] & Hin & Hkey). by apply Hnone in Hin.
      * intros l ->. rewrite tokens_of_strings in Htokens. injection Htokens as <-.
        split; [by intros (? & ? & ?)|].
        intros (attr & Hin & Hkey). by apply Hnone in Hin.
    + (* a token has none *)
      assert (Hin : attr ∈ tokens).
      { apply set_iter_elem. rewrite Hitems. apply elem_of_app. right. by left. }
      rewrite Hraise. split_and!.
      * by intros attrs σ' [=].
      * split; [|by eauto]. intros _. by exists tokens, attr.
      * intros l ->. rewrite tokens_of_strings in Htokens. injection Htokens as <-.
        split; [|by eauto]. intros _. by exists attr.
  - rewrite Hcases. split_and!.
    + by intros attrs σ' [=].
    + split.
      * intros (msg & σ' & [= -> ->]). by apply tokens_of_raise in Htokens as [?|?].
      * by intros (? & ? & [=] & _).
    + intros l ->. by rewrite tokens_of_strings in Htokens.
Qed.

(** A set is iterated as the list of its elements without repetition, in
    some order. *)
Lemma set_iter_perm l : set_iter l ≡ₚ remove_dups l.
Proof.
  apply NoDup_Permutation; [apply set_iter_NoDup|apply NoDup_remove_dups|].
  intros x. by rewrite set_iter_elem, elem_of_remove_dups.
Qed.

Lemma set_iter_NoDup_perm l : NoDup l → set_iter l ≡ₚ l.
Proof.
  intros Hl. apply NoDup_Permutation; [apply set_iter_NoDup|done|apply set_iter_elem].
Qed.

Lemma set_iter_singleton attr : set_iter [attr] = [attr].
Proof.
  apply Permutation_singleton_r. rewrite set_iter_NoDup_perm; [done|].
  apply NoDup_singleton.
Qed.

Lemma set_iter_pair a b :
  a ≠ b → set_iter [a; b] = [a; b] ∨ set_iter [a; b] = [b; a].
Proof.
  intros Hne. apply Permutation_length_2_inv. rewrite set_iter_NoDup_perm; [done|].
  apply NoDup_cons. split; [by rewrite list_elem_of_singleton|apply NoDup_singleton].
Qed.

(** C5: the elements of a sequence of attribute strings are split at the
    commas and flattened into one set of tokens; each token is split at its
    first '='; when the call succeeds every pair has been appended to the
    parse log and inserted into the returned map, which holds nothing else;
    when it fails the pairs accepted before the offending token have been
    appended to the parse log.  In particular [["a=1,b=2"]] gives the map
    [{a: "1", b: "2"}] and both pairs are in the parse log. *)
Theorem transform_attributes_flatten (l : list string) σ :
  let tokens := concat (PyStr.split "," <$> l) in
  (∀ attrs σ', transform_attributes (VList (VStr <$> l)) σ = (Ok attrs, σ') →
     ∃ items,
       items ≡ₚ remove_dups tokens ∧
       σ' = Some (default [] σ ++ (pair_of <$> items)) ∧
       attrs = insert_pairs (pair_of <$> items) ∅ ∧
       (∀ attr, attr ∈ tokens →
          pair_of attr ∈ pair_of <$> items ∧ is_Some (attrs !! key_of attr)) ∧
       (∀ key v, attrs !! key = Some v →
          ∃ attr, attr ∈ tokens ∧ pair_of attr = (key, v)))
  ∧ (∀ e σ', transform_attributes (VList (VStr <$> l)) σ = (Raise e, σ') →
     ∃ items accepted attr rest,
       items ≡ₚ remove_dups tokens ∧ items = accepted ++ attr :: rest ∧
       e = UsageError (invalid_attribute attr) ∧
       σ' = Some (default [] σ ++ (pair_of <$> accepted)))
  ∧ (∃ entries,
       transform_attributes (VList [VStr "a=1,b=2"]) σ =
         (Ok {[ "a" := VStr "1"; "b" := VStr "2" ]}, Some (default [] σ ++ entries)) ∧
       entries ≡ₚ [("a", VStr "1"); ("b", VStr "2")]).
Proof.
  intros tokens.
  pose proof (transform_attributes_cases (VList (VStr <$> l)) σ) as Hcases.
  rewrite tokens_of_strings in Hcases. fold tokens in Hcases. cbn zeta in Hcases.
  split_and!.
  - intros attrs σ' Heq.
    destruct Hcases as [[Hall Hok]|(done & attr & rest & _ & _ & Hraise)]; [|congruence].
    rewrite Hok in Heq. injection Heq as <- <-.
    exists (set_iter tokens). split_and!; [apply set_iter_perm|done|done| |].
    + intros attr Hin%set_iter_elem. split.
      * by apply list_elem_of_fmap_2.
      * apply insert_pairs_is_Some. right. rewrite key_of_pairs.
        by apply list_elem_of_fmap_2.
    + intros key v [Hkey|Hkey]%insert_pairs_lookup; [by rewrite lookup_empty in Hkey|].
      apply list_elem_of_fmap in Hkey as (attr & ? & Hin).
      apply (proj1 (set_iter_elem _ _)) in Hin. eauto.
  - intros e σ' Heq.
    destruct Hcases as [[Hall Hok]|(done & attr & rest & Hitems & _ & Hraise)]; [congruence|].
    rewrite Hraise in Heq. injection Heq as <- <-.
    exists (set_iter tokens), done, attr, rest. split_and!; [apply set_iter_perm|done..].
  - clear Hcases. rewrite transform_attributes_tokens. change (VList [VStr "a=1,b=2"]) with
      (VList (VStr <$> ["a=1,b=2"])). rewrite tokens_of_strings.
    change (concat (PyStr.split "," <$> ["a=1,b=2"])) with ["a=1"; "b=2"].
    destruct (set_iter_pair "a=1" "b=2") as [-> | ->]; [done| |].
    + exists [("a", VStr "1"); ("b", VStr "2")]. split; [|done].
      rewrite transform_items_accept by (repeat constructor; done). done.
    + exists [("b", VStr "2"); ("a", VStr "1")]. split; [|by apply Permutation_swap].
      rewrite transform_items_accept by (repeat constructor; done). done.
Qed.

(** One token: it is refused when it has no key and accepted otherwise. *)
Lemma transform_token attr σ :
  ("," : ascii) ∉ list_ascii_of_string attr →
  transform_attributes (VList [VStr attr]) σ =
    if String.eqb (key_of attr) "" then
      (Raise (UsageError (invalid_attribute attr)), Some (default [] σ))
    else (Ok {[ key_of attr := VStr (val_of attr) ]}, Some (default [] σ ++ [pair_of attr])).
Proof.
  intros Hcomma. rewrite transform_attributes_tokens.
  change (VList [VStr attr]) with (VList (VStr <$> [attr])). rewrite tokens_of_strings.
  cbn [fmap list_fmap concat]. rewrite split_whole by done. cbn [app].
  rewrite set_iter_singleton, transform_items_step.
  destruct (String.eqb (key_of attr) ""); [done|]. cbn. by rewrite insert_empty.
Qed.

(** A token with no '=' is accepted. *)
Lemma transform_novalue σ :
  transform_attributes (VList [VStr "novalue"]) σ =
    (Ok {[ "novalue" := VStr "" ]}, Some (default [] σ ++ [("novalue", VStr "")])).
Proof. rewrite transform_token; [done|]. compute_done. Qed.

(** C4 (as amended): the call on [["novalue"]] does not fail: a token with
    no '=' is all key, with the empty string as its value, and the map
    [{novalue: ""}] is returned.  The [UsageError] naming the token and the
    format key=value is raised when the part before the first '=' is empty,
    as for [["=novalue"]]; so it is for every token. *)
Theorem transform_attributes_novalue σ :
  transform_attributes (VList [VStr "novalue"]) σ =
    (Ok {[ "novalue" := VStr "" ]}, Some (default [] σ ++ [("novalue", VStr "")]))
  ∧ transform_attributes (VList [VStr "=novalue"]) σ =
    (Raise (UsageError "Invalid attribute: =novalue; format should be key=value"),
     Some (default [] σ))
  ∧ (∀ attr, ("," : ascii) ∉ list_ascii_of_string attr →
       (("=" : ascii) ∉ list_ascii_of_string attr → key_of attr = attr ∧ val_of attr = "")
       ∧ transform_attributes (VList [VStr attr]) σ =
           if String.eqb (key_of attr) "" then
             (Raise (UsageError (invalid_attribute attr)), Some (default [] σ))
           else (Ok {[ key_of attr := VStr (val_of attr) ]},
                 Some (default [] σ ++ [pair_of attr]))).
Proof.
  split_and!.
  - apply transform_novalue.
  - rewrite transform_token; [done|]. compute_done.
  - intros attr Hcomma. split; [|by apply transform_token].
    intros Hequals. unfold key_of, val_of.
    destruct (partition_separator "=" attr) as [Hsep|[_ ->]]; [|done].
    destruct Hequals. rewrite (partition_concat "=" attr), Hsep.
    clear. induction ((PyStr.partition "=" attr).1.1) as [|c h IH]; cbn.
    + by left.
    + by right.
Qed.

(** C9: an element that is an integer is not cast to a string: the split at
    the commas, which comes first, raises [AttributeError] on it, and
    nothing is stored.  So it is for [[5]]. *)
Theorem transform_attributes_integer (before : list string) (z : Z) (after : list pyval) σ :
  transform_attributes (VList ((VStr <$> before) ++ VInt z :: after)) σ =
    (Raise AttributeError, σ)
  ∧ transform_attributes (VList [VInt 5]) σ = (Raise AttributeError, σ).
Proof.
  assert (∀ before, transform_attributes (VList ((VStr <$> before) ++ VInt z :: after)) σ =
            (Raise AttributeError, σ)) as Hgen.
  { intros bs. rewrite transform_attributes_tokens. unfold tokens_of. cbn [elements].
    assert (comprehension split_commas ((VStr <$> bs) ++ VInt z :: after) =
              Raise AttributeError) as Hc.
    { induction bs as [|s bs IH]; [done|]. cbn. by rewrite IH. }
    cbn. by rewrite Hc. }
  split; [apply Hgen|]. rewrite transform_attributes_tokens. done.
Qed.

End AttributeParserClaims.

(** C4: the call on [["novalue"]] raises no [UsageError], whatever the order
    in which sets are iterated. *)
Lemma novalue_is_accepted :
  ¬ ∃ (order : IterOrder) msg σ',
      transform_attributes (VList [VStr "novalue"]) None = (Raise (UsageError msg), σ').
Proof.
  intros (order & msg & σ' & Heq).
  by rewrite transform_novalue in Heq.
Qed.

(** ** The constraint extractor *)

Section Constraints.

Implicit Types (obj constraints : record) (σ : store).

(** The loop over the constrained fields moves the fields the dict has and
    passes over the others. *)
Lemma pop_fields_lookup constraint_fields constraints obj :
  (∀ f, (pop_fields constraint_fields constraints obj).1 !! f =
          if decide (f ∈ constraint_fields)
          then match obj !! f with Some v => Some v | None => constraints !! f end
          else constraints !! f)
  ∧ (∀ k, (pop_fields constraint_fields constraints obj).2 !! k =
          if decide (k ∈ constraint_fields) then None else obj !! k).
Proof.
  revert constraints obj.
  induction constraint_fields as [|c rest IH]; intros constraints obj.
  - split; intros k; rewrite decide_False; [done|apply not_elem_of_nil|done|apply not_elem_of_nil].
  - cbn [pop_fields]. destruct (obj !! c) as [v|] eqn:Hc.
    + destruct (IH (<[c:=v]> constraints) (delete c obj)) as [IH1 IH2].
      split; intros k; [rewrite IH1|rewrite IH2]; clear IH1 IH2.
      * destruct (decide (k = c)) as [->|Hne].
        { rewrite lookup_delete_eq, lookup_insert_eq, Hc.
          rewrite (decide_True (P := c ∈ c :: rest)) by (by left).
          by case_decide. }
        rewrite lookup_delete_ne, lookup_insert_ne by done.
        apply decide_ext. rewrite elem_of_cons. intuition congruence.
      * destruct (decide (k = c)) as [->|Hne].
        { rewrite lookup_delete_eq.
          rewrite (decide_True (P := c ∈ c :: rest)) by (by left).
          by case_decide. }
        rewrite lookup_delete_ne by done.
        apply decide_ext. rewrite elem_of_cons. intuition congruence.
    + destruct (IH constraints obj) as [IH1 IH2].
      split; intros k; [rewrite IH1|rewrite IH2]; clear IH1 IH2.
      * destruct (decide (k = c)) as [->|Hne].
        { rewrite Hc. rewrite (decide_True (P := c ∈ c :: rest)) by (by left).
          by case_decide. }
        apply decide_ext. rewrite elem_of_cons. intuition congruence.
      * destruct (decide (k = c)) as [->|Hne].
        { rewrite Hc. by repeat case_decide. }
        apply decide_ext. rewrite elem_of_cons. intuition congruence.
Qed.

(** What the body of the loop over the objects leaves in a dict. *)
Lemma constrain_lookup constraint_fields obj :
  ∃ constraints,
    constrain constraint_fields obj !! "constraints" = Some (VDict constraints) ∧
    (∀ f, constraints !! f = if decide (f ∈ constraint_fields) then obj !! f else None) ∧
    (∀ k, k ≠ "constraints" →
       constrain constraint_fields obj !! k =
         if decide (k ∈ constraint_fields) then None else obj !! k).
Proof.
  unfold constrain.
  destruct (pop_fields_lookup constraint_fields ∅ obj) as [H1 H2].
  destruct (pop_fields constraint_fields ∅ obj) as [constraints obj'].
  exists constraints. cbn [fst snd] in *. split_and!.
  - by rewrite lookup_insert_eq.
  - intros f. rewrite H1, lookup_empty. case_decide; [|done]. by destruct (obj !! f).
  - intros k Hk. by rewrite lookup_insert_ne.
Qed.

(** Each object named once in the list goes through the body once; the
    other objects of the store are left alone. *)
Lemma constrain_objects_lookup objects constraint_fields σ a :
  NoDup objects →
  constrain_objects objects constraint_fields σ !! a =
    if decide (a ∈ objects) then constrain constraint_fields <$> σ !! a else σ !! a.
Proof.
  intros Hnd. revert σ. induction Hnd as [|b objects Hb Hnd IH]; intros σ.
  - cbn. rewrite decide_False; [done|apply not_elem_of_nil].
  - cbn [constrain_objects]. rewrite IH.
    destruct (decide (a = b)) as [->|Hne].
    + rewrite (decide_True (P := b ∈ b :: objects)) by (by left).
      rewrite decide_False by done. by rewrite lookup_alter_eq.
    + rewrite lookup_alter_ne by done.
      apply decide_ext. rewrite elem_of_cons. intuition congruence.
Qed.




End Constraints.

(** One dict: [{name: "x", site: 1}] with the constrained field 'site'. *)
Example process_constraints_single :
  process_constraints (One 0) ["site"] {[ 0 := {[ "name" := VStr "x"; "site" := VInt 1 ]} ]} =
  (One 0, {[ 0 := {[ "name" := VStr "x";
                     "constraints" := VDict {[ "site" := VInt 1 ]} ]} ]}).
Proof. vm_compute. reflexivity. Qed.

(** A list of two: [{a: 1}] and [{b: 2}] with the constrained field 'a'; the
    second gets an empty 'constraints'. *)
Example process_constraints_list :
  process_constraints (Many [0; 1]) ["a"] two_records =
  (Many [0; 1], {[ 0 := {[ "constraints" := VDict {[ "a" := VInt 1 ]} ]};
                   1 := {[ "b" := VInt 2; "constraints" := VDict ∅ ]} ]}).
Proof. vm_compute. reflexivity. Qed.


(** ** The natural-key resolver *)

Section NaturalKey.

Variable get_single_object : record → option resource → result (option record).

(** C6 (as amended): when the Lookup Service returns, the resolver raises a
    [UsageError] exactly when it returned no object or an object whose 'id'
    is [None], which are one failure with one message; the message names the
    resource type and reads No matching <resource_name> found; try lookup
    using option "-i" / "--id". (below, ["034"] is the double quote).  When
    the service returned an object with an identifier, the identifier is
    returned. *)
Theorem get_resource_by_natural_key_found data resource_name res found :
  get_single_object data res = Ok found →
  let outcome := get_resource_by_natural_key get_single_object data resource_name res in
  let no_id := found = None ∨ ∃ obj, found = Some obj ∧ obj !! "id" = Some VNone in
  let message :=
    "No matching " +:+ resource_name +:+ " found; try lookup using option "
    +:+ String "034" ("-i" +:+ String "034" (" / " +:+ String "034" ("--id"
    +:+ String "034" "."))) in
  ((∃ msg, outcome = Raise (UsageError msg)) ↔ no_id)
  ∧ (no_id → outcome = Raise (UsageError message))
  ∧ (∀ obj resource_id,
       found = Some obj → obj !! "id" = Some resource_id → resource_id ≠ VNone →
       outcome = Ok resource_id).
Proof.
  intros Hfound outcome no_id message. subst outcome no_id message.
  unfold get_resource_by_natural_key. rewrite Hfound. cbn.
  destruct found as [obj|]; cbn.
  - unfold getitem. destruct (obj !! "id") as [resource_id|] eqn:Hid; cbn.
    + destruct resource_id; split_and!;
        try (split; [by intros [? [=]]|by intros [[=]|(? & [= <-] & ?)]; simplify_eq]);
        try (by intros [[=]|(? & [= <-] & ?)]; simplify_eq);
        try (by intros ? ? [= <-] ? ?; simplify_eq);
        try (split; [|by eauto]; intros _; right; by exists obj).
    + split_and!.
      * split; [by intros [? [=]]|]. by intros [[=]|(? & [= <-] & ?)]; simplify_eq.
      * by intros [[=]|(? & [= <-] & ?)]; simplify_eq.
      * intros ? ? [= <-] ? ?; simplify_eq.
  - split_and!; [split; [|by eauto]; intros _; by left|done|by intros ? ? [=]].
Qed.

End NaturalKey.

Lemma get_resource_by_natural_key_found_witness :
  (λ (_ : record) (_ : option resource), Ok None) ({[ "cidr" := VStr "10.0.0.0/8" ]} : record)
    (Some (Collection "networks")) = Ok (None : option record) ∧
  get_resource_by_natural_key (λ _ _, Ok None) {[ "cidr" := VStr "10.0.0.0/8" ]} "networks"
    (Some (Collection "networks")) =
  Raise (UsageError
           ("No matching networks found; try lookup using option "
            +:+ String "034" ("-i" +:+ String "034" (" / " +:+ String "034" ("--id"
            +:+ String "034" "."))))).
Proof.
  split; [reflexivity|].
  apply (get_resource_by_natural_key_found (λ _ _, Ok None)
           {[ "cidr" := VStr "10.0.0.0/8" ]} "networks" (Some (Collection "networks")) None
           eq_refl).
  by left.
Defined.

(** C6: the message raised for a network that is not found is not the text
    no matching networks found; try lookup using an explicit identifier,
    with or without a full stop. *)
Lemma no_matching_is_not_the_quoted_text :
  let outcome :=
    get_resource_by_natural_key (λ _ _, Ok None) {[ "cidr" := VStr "10.0.0.0/8" ]}
      "networks" (Some (Collection "networks")) in
  outcome ≠ Raise (UsageError
                     "no matching networks found; try lookup using an explicit identifier")
  ∧ outcome ≠ Raise (UsageError
                       "no matching networks found; try lookup using an explicit identifier.").
Proof. split; vm_compute; by intros [=]. Qed.

(** ** The nested-resource dispatcher *)

(** C8 (as amended): the working parameter map is the parent's own mapping,
    changed in place.  After the merge and the extraction of 'id' the parent's
    mapping holds, for every key but 'id', the command's own value if it has
    one and the parent's otherwise, and has no 'id'; the value extracted is
    the merged map's 'id', a [KeyError] if it has none; the command's own
    mapping and the rest of the context are as they were, and no call has
    been made on the application. *)
Theorem gather_params_in_place (ctx : context) :
  let outcome := (gather_params ctx).1 in
  let ctx' := (gather_params ctx).2 in
  let merged key :=
    match params ctx !! key with Some v => Some v | None => parent_params ctx !! key end in
  (∀ key, parent_params ctx' !! key = if decide (key = "id") then None else merged key)
  ∧ outcome = match merged "id" with Some v => Ok v | None => Raise (KeyError "id") end
  ∧ params ctx' = params ctx
  ∧ info_name ctx' = info_name ctx
  ∧ app_parent_resource_name ctx' = app_parent_resource_name ctx
  ∧ app_resource_name ctx' = app_resource_name ctx
  ∧ calls ctx' = calls ctx.
Proof.
  intros outcome ctx' merged.
  assert (Hmerged : ∀ key, (params ctx ∪ parent_params ctx) !! key = merged key).
  { intros key. rewrite lookup_union. unfold merged.
    by destruct (params ctx !! key), (parent_params ctx !! key). }
  subst outcome ctx'. unfold gather_params. cbn [parent_params set_parent_params].
  rewrite Hmerged. destruct (merged "id") as [v|] eqn:Hid; cbn; split_and!; try done.
  - intros key. case_decide as Hkey; [subst; apply lookup_delete_eq|].
    by rewrite lookup_delete_ne.
  - intros key. rewrite Hmerged. case_decide as Hkey; [by subst|done].
Qed.

(** C8: on the context of a nested listing, the parent's parameter mapping is
    not what it was once the parameters have been gathered. *)
Lemma gather_params_changes_parent :
  parent_params (gather_params nested_listing_ctx).2 ≠ parent_params nested_listing_ctx.
Proof.
  intros Heq. apply (f_equal (λ d : record, d !! "id")) in Heq.
  vm_compute in Heq. discriminate.
Qed.

(** The listing of the supernets of a network given by its cidr: the id comes
    from the Lookup Service, and the resource listed is that of network 5's
    supernets, with the merged parameters. *)
Example list_subcommand_nested :
  let lookup (_ : record) (_ : option resource) : result (option record) :=
    Ok (Some {[ "id" := VInt 5; "cidr" := VStr "10.0.0.0/8" ]}) in
  let merged : record := {[ "cidr" := VStr "10.0.0.0/8"; "limit" := VInt 5 ]} in
  list_subcommand lookup rebase_returns every_resource list_returns ["cidr"] None
    nested_listing_ctx =
  (Ok (), MkContext merged {[ "limit" := VInt 5 ]} "supernets" "networks" None
            [Rebase merged;
             LookupCall merged (Some (Collection "networks"));
             ListCall merged ["cidr"] (Nested (Collection "networks") (VInt 5) "supernets")]).
Proof. vm_compute. reflexivity. Qed.

(** Without a match nothing is listed. *)
Example list_subcommand_no_match :
  let merged : record := {[ "cidr" := VStr "10.0.0.0/8"; "limit" := VInt 5 ]} in
  list_subcommand (λ _ _, Ok None) rebase_returns every_resource list_returns ["cidr"] None
    nested_listing_ctx =
  (Raise (UsageError (no_matching "networks")),
   MkContext merged {[ "limit" := VInt 5 ]} "supernets" "networks" None
     [Rebase merged; LookupCall merged (Some (Collection "networks"))]).
Proof. vm_compute. reflexivity. Qed.


(** ** The rows of [csv.DictReader] *)

Section Rows.

Lemma dom_dict_pairs (pairs : list (option string * pyval)) (d : row) :
  dom (foldl (λ d kv, <[kv.1 := kv.2]> d) d pairs) = dom d ∪ list_to_set pairs.*1.
Proof.
  revert d. induction pairs as [|[k v] pairs IH]; intros d; cbn.
  - by rewrite (right_id_L ∅ (∪)).
  - rewrite IH, dom_insert_L. by rewrite (comm_L (∪) {[_]}), <- (assoc_L (∪)).
Qed.

Lemma dom_restval (keys : list string) (d : row) :
  dom (foldl (λ d key, <[Some key := VNone]> d) d keys) = dom d ∪ list_to_set (Some <$> keys).
Proof.
  revert d. induction keys as [|k keys IH]; intros d; cbn.
  - by rewrite (right_id_L ∅ (∪)).
  - rewrite IH, dom_insert_L. by rewrite (comm_L (∪) {[_]}), <- (assoc_L (∪)).
Qed.

Lemma fst_zip_take {A B} (l : list A) (k : list B) : (zip l k).*1 = take (length k) l.
Proof.
  revert k. induction l as [|x l IH]; intros [|y k]; cbn; [done..|]. by rewrite IH.
Qed.

(** The keys of a row are the field names, and [None] too when the row is
    long: the missing fields of a short row are keys as well. *)
Lemma dom_make_row fieldnames fields :
  dom (make_row fieldnames fields) =
    list_to_set (Some <$> fieldnames) ∪
    (if (length fieldnames <? length fields)%nat then {[ None ]} else ∅).
Proof.
  unfold make_row, dict_of_pairs.
  destruct (Nat.ltb_spec (length fieldnames) (length fields)) as [Hlt|Hge].
  - rewrite dom_insert_L, dom_dict_pairs, dom_empty_L, fst_zip_take.
    rewrite length_fmap, take_ge by (rewrite length_fmap; lia).
    rewrite (left_id_L ∅ (∪)). apply (comm_L (∪)).
  - destruct (Nat.ltb_spec (length fields) (length fieldnames)) as [Hlt|Hge'].
    + rewrite dom_restval, dom_dict_pairs, dom_empty_L, fst_zip_take, length_fmap.
      rewrite <- (take_drop (length fields) fieldnames) at 3.
      rewrite fmap_app, list_to_set_app_L, fmap_take.
      by rewrite (left_id_L ∅ (∪)), (right_id_L ∅ (∪)).
    + rewrite dom_dict_pairs, dom_empty_L, fst_zip_take.
      rewrite length_fmap, take_ge by (rewrite length_fmap; lia).
      by rewrite (left_id_L ∅ (∪)), (right_id_L ∅ (∪)).
Qed.

(** [len(r)] against [len(reader.fieldnames)], for field names that are
    distinct: the two differ for a long row only. *)
Lemma size_make_row fieldnames fields :
  NoDup fieldnames →
  size (make_row fieldnames fields) =
    if (length fieldnames <? length fields)%nat then S (length fieldnames)
    else length fieldnames.
Proof.
  intros Hnd. rewrite <- size_dom, dom_make_row.
  assert (Hsize : size (list_to_set (C := gset (option string)) (Some <$> fieldnames))
                  = length fieldnames).
  { rewrite size_list_to_set, length_fmap; [done|]. apply NoDup_fmap; [apply _|done]. }
  destruct (length fieldnames <? length fields)%nat.
  - rewrite size_union, size_singleton, Hsize; [lia|].
    apply disjoint_singleton_r. rewrite elem_of_list_to_set, list_elem_of_fmap.
    by intros (? & [=] & _).
  - rewrite (right_id_L ∅ (∪)). exact Hsize.
Qed.

Lemma lookup_restval (keys : list string) (d : row) key :
  foldl (λ d key, <[Some key := VNone]> d) d keys !! Some key =
    if decide (key ∈ keys) then Some VNone else d !! Some key.
Proof.
  revert d. induction keys as [|k keys IH]; intros d; cbn.
  - rewrite decide_False; [done|apply not_elem_of_nil].
  - rewrite IH. destruct (decide (key = k)) as [->|Hne].
    + rewrite (decide_True (P := k ∈ k :: keys)) by (by left).
      rewrite lookup_insert_eq. by case_decide.
    + rewrite lookup_insert_ne by congruence.
      apply decide_ext. rewrite elem_of_cons. intuition congruence.
Qed.

(** A field name the row has no field for is a key with the value [None]. *)
Lemma make_row_missing fieldnames fields key :
  key ∈ drop (length fields) fieldnames →
  make_row fieldnames fields !! Some key = Some VNone.
Proof.
  intros Hkey. unfold make_row.
  assert (length fields < length fieldnames) as Hlt.
  { destruct (decide (length fields < length fieldnames)) as [|Hge]; [done|].
    rewrite drop_ge in Hkey by lia. by apply elem_of_nil in Hkey. }
  rewrite (proj2 (Nat.ltb_ge _ _)) by lia.
  rewrite (proj2 (Nat.ltb_lt _ _)) by lia.
  rewrite lookup_restval. by rewrite decide_True.
Qed.

Context {order : IterOrder}.

(** A row with more fields than the header is reported, with its line. *)
Lemma long_row_reported parent_resource_name fieldnames lineno fields σ :
  NoDup fieldnames → length fieldnames < length fields →
  process_row parent_resource_name fieldnames lineno (make_row fieldnames fields) σ =
    (Raise (BadParameter (wrong_number_of_fields lineno)), σ).
Proof.
  intros Hnd Hlt. unfold process_row. rewrite size_make_row by done.
  rewrite (proj2 (Nat.ltb_lt _ _)) by lia.
  by rewrite (proj2 (Nat.eqb_neq _ _)) by lia.
Qed.

(** A row with fewer fields is not: it passes the check.  When its
    'attributes' is among the missing fields and the objects have
    attributes, [transform_attributes] is given [None] and the load ends in
    a [TypeError]. *)
Lemma short_row_passes fieldnames fields :
  NoDup fieldnames → (length fields ≤ length fieldnames)%nat →
  negb (size (make_row fieldnames fields) =? length fieldnames)%nat = false.
Proof.
  intros Hnd Hle. rewrite size_make_row by done.
  rewrite (proj2 (Nat.ltb_ge _ _)) by lia. by rewrite Nat.eqb_refl.
Qed.

Lemma short_row_TypeError parent_resource_name fieldnames lineno fields σ :
  NoDup fieldnames → "attributes" ∈ drop (length fields) fieldnames →
  parent_resource_name ∉ NO_ATTRIBUTES →
  process_row parent_resource_name fieldnames lineno (make_row fieldnames fields) σ =
    (Raise TypeError, σ).
Proof.
  intros Hnd Hattr Hname. unfold process_row.
  assert (length fields < length fieldnames) as Hlt.
  { destruct (decide (length fields < length fieldnames)) as [|Hge]; [done|].
    rewrite drop_ge in Hattr by lia. by apply elem_of_nil in Hattr. }
  rewrite short_row_passes by (done || lia).
  rewrite bool_decide_eq_true_2 by done.
  unfold mbind, M_bind, lift, getitem. by rewrite make_row_missing.
Qed.

End Rows.

(** When the loop over the items of a row ends without raising, every field
    that looked boolean holds what [literal_eval] made of the string as it
    was in the file, and the other fields are as they were. *)
Lemma coerce_booleans_Ok (lineno : nat) (items : list (option string * pyval)) (r r' : row) :
  NoDup items.*1 → (∀ k v, (k, v) ∈ items → r !! k = Some v) →
  coerce_booleans lineno items r = Ok r' →
  ∀ k, r' !! k = if decide (k ∈ items.*1) then coerced <$> r !! k else r !! k.
Proof.
  revert r. induction items as [|[k0 v0] items IH]; intros r Hnd Hitems Heq k.
  - injection Heq as <-. rewrite decide_False; [done|apply not_elem_of_nil].
  - cbn in Hnd. apply NoDup_cons in Hnd as [Hk0 Hnd].
    assert (Hv0 : r !! k0 = Some v0) by (apply Hitems; by left).
    assert (Hrest : ∀ k v, (k, v) ∈ items → k ≠ k0).
    { intros k1 v1 Hin ->. apply Hk0. apply list_elem_of_fmap. by exists (k0, v1). }
    cbn [coerce_booleans] in Heq.
    assert (Hstep : ∀ r1 : row,
              (∀ k1, k1 ≠ k0 → r1 !! k1 = r !! k1) → r1 !! k0 = Some (coerced v0) →
              coerce_booleans lineno items r1 = Ok r' →
              r' !! k = if decide (k ∈ ((k0, v0) :: items).*1)
                        then coerced <$> r !! k else r !! k).
    { intros r1 Hother Hk Hr1. rewrite (IH r1 Hnd) by
        (done || intros k1 v1 Hin; rewrite Hother by (by eapply Hrest); apply Hitems; by right).
      cbn. destruct (decide (k = k0)) as [->|Hne].
      - rewrite (decide_True (P := k0 ∈ k0 :: items.*1)) by (by left).
        rewrite decide_False by done. by rewrite Hk, Hv0.
      - rewrite Hother by done. apply decide_ext. rewrite elem_of_cons. intuition congruence. }
    destruct v0 as [| | |s| |d]; try done.
    + cbn in Hstep. destruct (looks_boolean s) eqn:Hs.
      * destruct (literal_eval s) as [b|e] eqn:Hb; [|done]. cbn in Heq.
        apply (Hstep (<[k0:=b]> r)); [|by rewrite lookup_insert_eq|done].
        intros k1 Hk1. by rewrite lookup_insert_ne.
      * by apply (Hstep r).
    + by apply (Hstep r).
Qed.

Section RowFields.

Context {order : IterOrder}.

(** The same, for the loop as [process_bulk_add] runs it: over the items of
    the row itself. *)
Lemma coerce_booleans_row (lineno : nat) (r r' : row) :
  coerce_booleans lineno (dict_iter r) r = Ok r' → r' = coerced <$> r.
Proof.
  intros Heq. apply map_eq. intros k. rewrite lookup_fmap.
  rewrite (coerce_booleans_Ok lineno (dict_iter r) r r'); [| | |done].
  - case_decide as Hk; [done|]. destruct (r !! k) as [v|] eqn:Hv; [|done].
    destruct Hk. apply list_elem_of_fmap. exists (k, v). split; [done|].
    rewrite dict_iter_perm. by apply elem_of_map_to_list.
  - rewrite dict_iter_perm. apply NoDup_fst_map_to_list.
  - intros k1 v1. rewrite dict_iter_perm. apply elem_of_map_to_list.
Qed.

(** A record the body of the loop appends: the row had as many keys as the
    header has names; its 'attributes' has been parsed when the objects have
    attributes; then every field has been through the coercion. *)
Lemma process_row_Ok (parent_resource_name : string) (fieldnames : list string)
    (lineno : nat) (r obj : row) (σ σ' : parse_log) :
  process_row parent_resource_name fieldnames lineno r σ = (Ok obj, σ') →
  size r = length fieldnames ∧
  ∃ r1 : row,
    obj = coerced <$> r1 ∧
    if bool_decide (parent_resource_name ∉ NO_ATTRIBUTES) then
      ∃ value attrs,
        r !! Some "attributes" = Some value ∧
        transform_attributes value σ = (Ok attrs, σ') ∧
        r1 = <[Some "attributes" := VDict attrs]> r
    else r1 = r ∧ σ' = σ.
Proof.
  unfold process_row. destruct (Nat.eqb_spec (size r) (length fieldnames)) as [Hsize|]; [|done].
  cbn [negb]. intros Heq. split; [done|].
  destruct (bool_decide (parent_resource_name ∉ NO_ATTRIBUTES)).
  - unfold mbind, M_bind, lift, getitem in Heq.
    destruct (r !! Some "attributes") as [value|] eqn:Hvalue; [|done].
    destruct (transform_attributes value σ) as [[attrs|e] σ1] eqn:Hattrs; [|done].
    cbn in Heq.
    destruct (coerce_booleans lineno _ _) as [r'|e] eqn:Hc; [|done].
    injection Heq as <- <-. apply coerce_booleans_row in Hc.
    exists (<[Some "attributes" := VDict attrs]> r). split; [done|]. by exists value, attrs.
  - unfold mbind, M_bind, lift in Heq. cbn in Heq.
    destruct (coerce_booleans lineno _ _) as [r'|e] eqn:Hc; [|done].
    injection Heq as <- <-. apply coerce_booleans_row in Hc. by exists r.
Qed.

End RowFields.

(** The fields of the records, on a file of two data rows and an empty line:
    [True] and [False] are booleans, 'attributes' is a dict. *)
Example process_bulk_add_example :
  process_bulk_add (order := default_order) "networks"
    (Some (rows_of_lines ["cidr:is_ip:attributes";
                          "10.0.0.0/8:False:owner=netops,env=prod";
                          "";
                          "10.0.0.1/32:True:owner=jathan"])) None =
  (Ok (Some [ {[ Some "cidr" := VStr "10.0.0.0/8"; Some "is_ip" := VBool false;
                 Some "attributes" :=
                   VDict {[ "owner" := VStr "netops"; "env" := VStr "prod" ]} ]};
              {[ Some "cidr" := VStr "10.0.0.1/32"; Some "is_ip" := VBool true;
                 Some "attributes" := VDict {[ "owner" := VStr "jathan" ]} ]} ]),
   Some [("owner", VStr "netops"); ("env", VStr "prod"); ("owner", VStr "jathan")]).
Proof. vm_compute. reflexivity. Qed.

(** A row with a field too many is reported with its line, here after an
    empty line. *)
Example process_bulk_add_long_row :
  process_bulk_add (order := default_order) "networks"
    (Some (rows_of_lines ["name:cidr:attributes"; ""; "foo:10.0.0.0/8:a=1:x"])) None =
  (Raise (BadParameter "File has wrong number of fields on line 3"), None).
Proof. vm_compute. reflexivity. Qed.

(** ** The bulk record loader *)

Section BulkLoader.

Context {order : IterOrder}.

Variable parent_resource_name : string.

(** The loop over the rows either goes through all of them, appending one
    record for each, in order, or stops at the first row its body raises
    on, with that exception. *)
Lemma bulk_loop_cases fieldnames rows objects σ :
  (∃ new σ',
     bulk_loop parent_resource_name fieldnames rows objects σ = (Ok (objects ++ new), σ') ∧
     Forall2 (transformed parent_resource_name fieldnames) rows new)
  ∨ (∃ e σ' done lr rest parsed,
       bulk_loop parent_resource_name fieldnames rows objects σ = (Raise e, σ') ∧
       rows = done ++ lr :: rest ∧
       Forall2 (transformed parent_resource_name fieldnames) done parsed ∧
       rejected parent_resource_name fieldnames lr e).
Proof.
  revert objects σ. induction rows as [|[lineno r] rows IH]; intros objects σ.
  - left. exists [], σ. rewrite app_nil_r. by split; [|constructor].
  - cbn [bulk_loop]. unfold mbind, M_bind.
    destruct (process_row parent_resource_name fieldnames lineno r σ) as [[obj|e] σ1] eqn:Hrow.
    + destruct (IH (objects ++ [obj]) σ1)
        as [(new & σ' & Heq & Hall)|(e & σ' & done & lr & rest & parsed & Heq & -> & Hall & Hrej)].
      * left. exists (obj :: new), σ'. rewrite Heq, <- app_assoc. split; [done|].
        constructor; [by exists σ, σ1|done].
      * right. exists e, σ', ((lineno, r) :: done), lr, rest, (obj :: parsed).
        split_and!; [done|done| |done]. constructor; [by exists σ, σ1|done].
    + right. exists e, σ1, [], (lineno, r), rows, [].
      split_and!; [done|done|constructor|by exists σ, σ1].
Qed.

(** C2: the bulk load is atomic.  On every stream the call either returns
    the whole list, one transformed record for each data row in the order
    of the file, or raises, in which case the records of the rows before
    the offending one, though parsed, are not returned: the outcome is an
    exception and no list. *)
Theorem process_bulk_add_atomic (stream : csv_rows) σ :
  let fieldnames := DictReader_fieldnames stream in
  let rows := DictReader_iter stream in
  let outcome := process_bulk_add parent_resource_name (Some stream) σ in
  (∃ objects σ',
     outcome = (Ok (Some objects), σ') ∧
     Forall2 (transformed parent_resource_name fieldnames) rows objects)
  ∨ (∃ e σ' done lr rest parsed,
       outcome = (Raise e, σ') ∧
       rows = done ++ lr :: rest ∧
       Forall2 (transformed parent_resource_name fieldnames) done parsed ∧
       rejected parent_resource_name fieldnames lr e).
Proof.
  intros fieldnames rows outcome. subst outcome.
  unfold process_bulk_add, mbind, M_bind.
  destruct (bulk_loop_cases fieldnames rows [] σ)
    as [(new & σ' & Heq & Hall)|(e & σ' & done & lr & rest & parsed & Heq & Hrows & Hall & Hrej)].
  - left. exists new, σ'. fold fieldnames rows. by rewrite Heq.
  - right. exists e, σ', done, lr, rest, parsed. fold fieldnames rows. by rewrite Heq.
Qed.

End BulkLoader.

Section BulkLoaderDefects.

Context {order : IterOrder}.

(** The strings [literal_eval] is given: it has a boolean for the two
    spelt as Python spells them and raises on the others. *)
Lemma literal_eval_looks_boolean s :
  looks_boolean s = true →
  (s = "True" ∧ literal_eval s = Ok (VBool true))
  ∨ (s = "False" ∧ literal_eval s = Ok (VBool false))
  ∨ (s ≠ "True" ∧ s ≠ "False" ∧ literal_eval s = Raise ValueError).
Proof.
  intros Hs. unfold literal_eval.
  destruct (String.eqb_spec s "True") as [->|HT]; [by left|].
  destruct (String.eqb_spec s "False") as [->|HF]; [by right; left|].
  destruct (String.eqb_spec s "None") as [->|HN]; [done|].
  by right; right.
Qed.

(** On a row of strings and dicts the loop can only end in the
    [ValueError] of [literal_eval], and does when a string looks boolean
    and is not spelt [True] or [False]. *)
Lemma coerce_booleans_malformed lineno items r :
  Forall (λ kv, match kv.2 with VStr _ | VDict _ => True | _ => False end) items →
  Exists (λ kv, ∃ s, kv.2 = VStr s ∧ looks_boolean s = true ∧ s ≠ "True" ∧ s ≠ "False") items →
  coerce_booleans lineno items r = Raise ValueError.
Proof.
  intros Hall. revert r. induction Hall as [|[k v] items Hv Hall IH]; intros r Hex.
  - by apply Exists_nil in Hex.
  - cbn [coerce_booleans]. cbn in Hv. destruct v as [| | |s| |d]; try done.
    + destruct (looks_boolean s) eqn:Hs.
      * destruct (literal_eval_looks_boolean s Hs)
          as [[-> ->]|[[-> ->]|(HT & HF & ->)]]; cbn; [| |done];
          apply IH; apply Exists_cons in Hex as [(? & [= <-] & ? & ? & ?)|?]; done.
      * apply IH. apply Exists_cons in Hex as [(? & [= <-] & ? & ? & ?)|?]; [congruence|done].
    + apply IH. by apply Exists_cons in Hex as [(? & [=] & _)|?].
Qed.

(** C1: the file of a header [name:cidr:attributes] and a data row of two
    fields.  The reader gives the row all three field names, the missing
    'attributes' being [None], so the check on the number of fields is
    passed; no [BadParameter] citing line 2 is raised, and the load ends in
    the [TypeError] of [transform_attributes] on [None]. *)
Theorem short_row_not_reported σ :
  (∃ r, DictReader_iter short_row_file = [(2, r)] ∧
        size r = length (DictReader_fieldnames short_row_file) ∧
        r !! Some "attributes" = Some VNone)
  ∧ process_bulk_add "networks" (Some short_row_file) σ = (Raise TypeError, σ).
Proof.
  split.
  - eexists. split; [reflexivity|]. split; reflexivity.
  - reflexivity.
Qed.

(** C3: a field [TRUE] is taken for a boolean, its title-cased form being
    ['True'], but the string evaluated is [TRUE] itself, which is no
    literal: the field is not replaced by a boolean and the load ends in a
    [ValueError]. *)
Theorem uppercase_boolean_not_coerced σ :
  looks_boolean "TRUE" = true
  ∧ process_bulk_add "networks" (Some uppercase_file) σ =
      (Raise ValueError, Some (default [] σ ++ [("owner", VStr "netops")])).
Proof.
  split; [done|].
  set (r := make_row ["name"; "attributes"] ["TRUE"; "owner=netops"]).
  assert (Hrow : process_row "networks" ["name"; "attributes"] 2 r σ =
            (Raise ValueError, Some (default [] σ ++ [("owner", VStr "netops")]))).
  { unfold process_row.
    change (negb (size r =? length ["name"; "attributes"])%nat) with false.
    change (bool_decide ("networks" ∉ NO_ATTRIBUTES)) with true.
    cbn match. unfold mbind at 1. unfold M_bind at 1.
    unfold mbind at 1. unfold M_bind at 1.
    change (lift (getitem r (Some "attributes") "attributes") σ)
      with (Ok (A:=pyval) (VStr "owner=netops"), σ).
    cbn match. unfold mbind at 1. unfold M_bind at 1.
    rewrite transform_attributes_tokens.
    change (tokens_of (VStr "owner=netops")) with (Ok (A:=list string) ["owner=netops"]).
    cbn match. rewrite set_iter_singleton, transform_items_step.
    change (String.eqb (key_of "owner=netops") "") with false.
    cbn match. cbn [transform_items mret M_ret].
    unfold lift. f_equal.
    apply coerce_booleans_malformed.
    - rewrite dict_iter_perm.
      match goal with |- Forall _ ?l => set (items := l) end.
      vm_compute in items. subst items. by repeat constructor.
    - rewrite dict_iter_perm. apply Exists_exists.
      exists (Some "name", VStr "TRUE"). split; [|by exists "TRUE"].
      by apply elem_of_map_to_list. }
  unfold process_bulk_add.
  change (DictReader_fieldnames uppercase_file) with ["name"; "attributes"].
  change (DictReader_iter uppercase_file) with [(2, r)].
  cbn [bulk_loop]. unfold mbind, M_bind. by rewrite Hrow.
Qed.

End BulkLoaderDefects.

(** * Further properties of the callbacks *)

(** ** [process_site_id] *)

(** X1: [process_site_id] raises exactly when the value is [None] and there
    is no default site, and what it raises then is the [UsageError] Missing
    option "-s" / "--site-id". (below, ["034"] is the double quote).  A site
    id that is returned is never [None] and is the default site from then
    on, so that a later call without a value returns it again; a value that
    is given is the one returned. *)
Theorem process_site_id_remembers (value default_site : pyval) :
  let message :=
    "Missing option " +:+ String "034" ("-s" +:+ String "034" (" / "
    +:+ String "034" ("--site-id" +:+ String "034" "."))) in
  ((∃ e, (process_site_id value default_site).1 = Raise e) ↔
   value = VNone ∧ default_site = VNone)
  ∧ (∀ e, (process_site_id value default_site).1 = Raise e →
       e = UsageError message ∧ (process_site_id value default_site).2 = default_site)
  ∧ (∀ site default_site',
       process_site_id value default_site = (Ok site, default_site') →
       site ≠ VNone ∧ default_site' = site ∧
       process_site_id VNone default_site' = (Ok site, default_site') ∧
       (value ≠ VNone → site = value)).
Proof.
  intros message. subst message. split_and!.
  - destruct value, default_site; cbn; split;
      try (by intros [? [=]]); try (by intros [[=] ?]); try (by intros [? [=]]);
      try (by intros [? [=]]). intros _. by eexists.
  - intros e. destruct value, default_site; cbn; try done. by intros [= <-].
  - intros site default_site'.
    destruct value, default_site; cbn; try done; intros [= <- <-];
      by split_and!.
Qed.

(** ** [transform_event] and [transform_resource_name] *)

Section TitleCase.

Ltac each_ascii c := destruct c as [[] [] [] [] [] [] [] []]; vm_compute; try done.

Lemma toupper_upper c :
  PyStr.islower c = true →
  PyStr.islower (PyStr.toupper c) = false ∧ PyStr.isupper (PyStr.toupper c) = true.
Proof. each_ascii c. Qed.

Lemma tolower_lower c :
  PyStr.islower c = false → PyStr.isupper c = true →
  PyStr.islower (PyStr.tolower c) = true.
Proof. each_ascii c. Qed.

Lemma title_from_idempotent b s :
  PyStr.title_from b (PyStr.title_from b s) = PyStr.title_from b s.
Proof.
  revert b. induction s as [|c s IH]; intros b; [done|]. cbn [PyStr.title_from].
  destruct (PyStr.islower c) eqn:Hl.
  - destruct b; cbn [PyStr.title_from].
    + by rewrite Hl, IH.
    + destruct (toupper_upper c Hl) as [-> ->]. by rewrite IH.
  - destruct (PyStr.isupper c) eqn:Hu.
    + destruct b; cbn [PyStr.title_from].
      * by rewrite (tolower_lower c Hl Hu), IH.
      * by rewrite Hl, Hu, IH.
    + cbn [PyStr.title_from]. by rewrite Hl, Hu, IH.
Qed.

Lemma title_from_length b s : String.length (PyStr.title_from b s) = String.length s.
Proof.
  revert b. induction s as [|c s IH]; intros b; [done|]. cbn [PyStr.title_from].
  destruct (PyStr.islower c); [|destruct (PyStr.isupper c)]; cbn; by rewrite IH.
Qed.

(** X2: the two title-case callbacks are idempotent and keep the length of
    the name; [None] stays [None]. *)
Theorem transform_event_idempotent (value : option string) :
  transform_event (transform_event value) = transform_event value
  ∧ transform_resource_name (transform_resource_name value) = transform_resource_name value
  ∧ String.length <$> transform_event value = String.length <$> value
  ∧ String.length <$> transform_resource_name value = String.length <$> value
  ∧ (transform_event value = None ↔ value = None)
  ∧ (transform_resource_name value = None ↔ value = None).
Proof.
  unfold transform_event, transform_resource_name, PyStr.title.
  destruct value as [s|]; cbn; rewrite ?title_from_idempotent, ?title_from_length;
    split_and!; done.
Qed.

End TitleCase.

(** ** The strings taken for booleans *)

Section BooleanSpellings.

Ltac each_ascii c := destruct c as [[] [] [] [] [] [] [] []]; vm_compute; try done.

Lemma str_lower_cons c s :
  str_lower (String c s) = String (PyStr.tolower c) (str_lower s).
Proof. done. Qed.

Lemma tolower_toupper c :
  PyStr.islower c = true → PyStr.tolower (PyStr.toupper c) = PyStr.tolower c.
Proof. each_ascii c. Qed.

Lemma tolower_tolower c : PyStr.tolower (PyStr.tolower c) = PyStr.tolower c.
Proof. each_ascii c. Qed.

(** Title case changes the case of letters and nothing else. *)
Lemma str_lower_title_from b s : str_lower (PyStr.title_from b s) = str_lower s.
Proof.
  revert b. induction s as [|c s IH]; intros b; [done|]. cbn [PyStr.title_from].
  destruct (PyStr.islower c) eqn:Hl; [|destruct (PyStr.isupper c) eqn:Hu];
    rewrite !str_lower_cons, IH; [| |done].
  - destruct b; [done|]. by rewrite tolower_toupper.
  - destruct b; [|done]. by rewrite tolower_tolower.
Qed.

(** The letters of [true] and [false], in either case. *)
Lemma tolower_letter c :
  match PyStr.tolower c with
  | "t"%char => c = "t"%char ∨ c = "T"%char
  | "r"%char => c = "r"%char ∨ c = "R"%char
  | "u"%char => c = "u"%char ∨ c = "U"%char
  | "e"%char => c = "e"%char ∨ c = "E"%char
  | "f"%char => c = "f"%char ∨ c = "F"%char
  | "a"%char => c = "a"%char ∨ c = "A"%char
  | "l"%char => c = "l"%char ∨ c = "L"%char
  | "s"%char => c = "s"%char ∨ c = "S"%char
  | _ => True
  end.
Proof. each_ascii c; auto. Qed.

Lemma lower_true_title s : str_lower s = "true" → PyStr.title s = "True".
Proof.
  destruct s as [|c1 [|c2 [|c3 [|c4 [|c5 s]]]]]; try done.
  rewrite !str_lower_cons. intros [= H1 H2 H3 H4].
  pose proof (tolower_letter c1) as L1. rewrite H1 in L1.
  pose proof (tolower_letter c2) as L2. rewrite H2 in L2.
  pose proof (tolower_letter c3) as L3. rewrite H3 in L3.
  pose proof (tolower_letter c4) as L4. rewrite H4 in L4.
  by destruct L1 as [-> | ->], L2 as [-> | ->], L3 as [-> | ->], L4 as [-> | ->].
Qed.

Lemma lower_false_title s : str_lower s = "false" → PyStr.title s = "False".
Proof.
  destruct s as [|c1 [|c2 [|c3 [|c4 [|c5 [|c6 s]]]]]]; try done.
  rewrite !str_lower_cons. intros [= H1 H2 H3 H4 H5].
  pose proof (tolower_letter c1) as L1. rewrite H1 in L1.
  pose proof (tolower_letter c2) as L2. rewrite H2 in L2.
  pose proof (tolower_letter c3) as L3. rewrite H3 in L3.
  pose proof (tolower_letter c4) as L4. rewrite H4 in L4.
  pose proof (tolower_letter c5) as L5. rewrite H5 in L5.
  by destruct L1 as [-> | ->], L2 as [-> | ->], L3 as [-> | ->], L4 as [-> | ->],
       L5 as [-> | ->].
Qed.

(** X3: the test [v.title() in ('True', 'False')] holds exactly of the
    strings that are [true] or [false] up to the case of their letters; of
    these only [True] and [False] as spelt have a value under
    [literal_eval], the others raise [ValueError]. *)
Theorem looks_boolean_case_insensitive (v : string) :
  (looks_boolean v = true ↔ str_lower v = "true" ∨ str_lower v = "false")
  ∧ (looks_boolean v = true →
       literal_eval v = (if String.eqb v "True" then Ok (VBool true)
                         else if String.eqb v "False" then Ok (VBool false)
                         else Raise ValueError)).
Proof.
  split.
  - unfold looks_boolean. rewrite bool_decide_eq_true. split.
    + intros [Heq|[Heq|[]%elem_of_nil]%elem_of_cons]%elem_of_cons;
        apply (f_equal str_lower) in Heq; unfold PyStr.title in Heq;
        rewrite str_lower_title_from in Heq; [by left|by right].
    + intros [H|H]; [apply lower_true_title in H|apply lower_false_title in H];
        rewrite H; [by left|right; by left].
  - intros Hv. unfold literal_eval.
    destruct (String.eqb v "True"); [done|]. destruct (String.eqb v "False"); [done|].
    destruct (String.eqb_spec v "None") as [->|]; [done|done].
Qed.

End BooleanSpellings.

(** ** More on the constraint extractor *)

Section ConstraintsMore.

Implicit Types (obj : record) (σ : store).

(** The body of the loop, key by key. *)
Lemma constrain_fields constraint_fields obj :
  constrain constraint_fields obj =
    <["constraints" := VDict (filter (λ kv, kv.1 ∈ constraint_fields) obj)]>
      (filter (λ kv, kv.1 ∉ constraint_fields) obj).
Proof.
  destruct (constrain_lookup constraint_fields obj) as (cs & Hcs & Hfields & Hother).
  assert (cs = filter (λ kv, kv.1 ∈ constraint_fields) obj) as <-.
  { apply map_eq. intros f. rewrite Hfields. case_decide as Hf.
    - destruct (obj !! f) as [v|] eqn:Hv; symmetry.
      + by apply map_lookup_filter_Some.
      + apply map_lookup_filter_None. left. done.
    - symmetry. apply map_lookup_filter_None. right. intros v _. done. }
  apply map_eq. intros k. destruct (decide (k = "constraints")) as [->|Hk].
  - by rewrite Hcs, lookup_insert_eq.
  - rewrite Hother, lookup_insert_ne by done. case_decide as Hf; symmetry.
    + apply map_lookup_filter_None. right. intros v _ Hnot. by apply Hnot.
    + destruct (obj !! k) as [v|] eqn:Hv.
      * by apply map_lookup_filter_Some.
      * apply map_lookup_filter_None. by left.
Qed.

Lemma constrain_objects_dom objects constraint_fields σ :
  dom (constrain_objects objects constraint_fields σ) = dom σ.
Proof.
  revert σ. induction objects as [|a objects IH]; intros σ; [done|].
  cbn [constrain_objects]. rewrite IH. apply dom_alter_L.
Qed.

Lemma constrain_objects_other objects constraint_fields σ b :
  b ∉ objects → constrain_objects objects constraint_fields σ !! b = σ !! b.
Proof.
  revert σ. induction objects as [|a objects IH]; intros σ Hb; [done|].
  apply not_elem_of_cons in Hb as [Hne Hb]. cbn [constrain_objects].
  rewrite IH by done. by rewrite lookup_alter_ne.
Qed.

(** X4: [process_constraints] touches the dicts it is given and nothing
    else: every other object of the store is as it was, and no object is
    created or dropped. *)
Theorem process_constraints_frame data constraint_fields σ :
  (∀ b, b ∉ objects_of data → (process_constraints data constraint_fields σ).2 !! b = σ !! b)
  ∧ dom (process_constraints data constraint_fields σ).2 = dom σ.
Proof.
  unfold process_constraints. cbn [snd]. split.
  - intros b Hb. by apply constrain_objects_other.
  - apply constrain_objects_dom.
Qed.

(** X5: nothing is lost from a dict that is processed once.  For a dict
    passed singly, or a dict of a list in which no dict is named twice,
    that had no 'constraints' key: the fields under 'constraints' and the
    fields left at the top level are apart and together are the dict as it
    was. *)
Theorem process_constraints_no_loss data constraint_fields σ a obj :
  (data = One a ∨ ∃ l, data = Many l ∧ NoDup l ∧ a ∈ l) → σ !! a = Some obj →
  obj !! "constraints" = None →
  ∃ obj' constraints,
    (process_constraints data constraint_fields σ).2 !! a = Some obj' ∧
    obj' !! "constraints" = Some (VDict constraints) ∧
    constraints ##ₘ delete "constraints" obj' ∧
    constraints ∪ delete "constraints" obj' = obj.
Proof.
  intros Hdata Hobj Hnone.
  assert (Hnd : NoDup (objects_of data) ∧ a ∈ objects_of data).
  { destruct Hdata as [->|(l & -> & Hnd & Hin)]; [|done].
    cbn. split; [apply NoDup_singleton|by left]. }
  destruct Hnd as [Hnd Hin].
  exists (constrain constraint_fields obj),
         (filter (λ kv, kv.1 ∈ constraint_fields) obj).
  unfold process_constraints. cbn [snd].
  rewrite constrain_objects_lookup, decide_True, Hobj by done.
  rewrite constrain_fields, lookup_insert_eq, delete_insert_eq.
  assert (Hdel : delete "constraints" (filter (λ kv, kv.1 ∉ constraint_fields) obj)
                 = filter (λ kv, kv.1 ∉ constraint_fields) obj).
  { apply delete_id. apply map_lookup_filter_None. by left. }
  rewrite Hdel. split_and!; [cbn; by rewrite constrain_fields|done| |].
  - apply map_disjoint_filter_complement.
  - apply map_filter_union_complement.
Qed.

Lemma process_constraints_no_loss_witness :
  (∃ obj' constraints,
     (process_constraints (One 0) ["a"] two_records).2 !! 0 = Some obj' ∧
     obj' !! "constraints" = Some (VDict constraints) ∧
     constraints ##ₘ delete "constraints" obj' ∧
     constraints ∪ delete "constraints" obj' = {[ "a" := VInt 1 ]})
  ∧ (∃ obj' constraints,
     (process_constraints (Many [0; 1]) ["a"] two_records).2 !! 0 = Some obj' ∧
     obj' !! "constraints" = Some (VDict constraints) ∧
     constraints ##ₘ delete "constraints" obj' ∧
     constraints ∪ delete "constraints" obj' = {[ "a" := VInt 1 ]}).
Proof.
  assert (Hnd : NoDup [0; 1]) by compute_done.
  assert (Hin : 0 ∈ [0; 1]) by compute_done.
  split.
  - exact (process_constraints_no_loss (One 0) ["a"] two_records 0
             {[ "a" := VInt 1 ]} (or_introl eq_refl) eq_refl eq_refl).
  - exact (process_constraints_no_loss (Many [0; 1]) ["a"] two_records 0
             {[ "a" := VInt 1 ]}
             (or_intror (ex_intro _ [0; 1] (conj eq_refl (conj Hnd Hin)))) eq_refl eq_refl).
Defined.

Lemma constrain_objects_ext objects fields1 fields2 σ :
  (∀ obj, constrain fields1 obj = constrain fields2 obj) →
  constrain_objects objects fields1 σ = constrain_objects objects fields2 σ.
Proof.
  intros Hext. revert σ. induction objects as [|a objects IH]; intros σ; [done|].
  cbn [constrain_objects]. rewrite IH. f_equal. apply alter_ext. intros obj _. apply Hext.
Qed.

(** X6: only the set of the constrained fields matters: their order and
    their repetitions do not change what [process_constraints] does. *)
Theorem process_constraints_fields_set data (fields1 fields2 : list string) σ :
  (∀ f, f ∈ fields1 ↔ f ∈ fields2) →
  process_constraints data fields1 σ = process_constraints data fields2 σ.
Proof.
  intros Hset. unfold process_constraints. f_equal.
  apply constrain_objects_ext. intros obj. rewrite !constrain_fields.
  f_equal; [f_equal|]; apply map_filter_ext; intros k v _; cbn; by rewrite Hset.
Qed.

Lemma process_constraints_fields_set_witness :
  process_constraints (Many [0; 1]) ["a"; "b"] two_records =
  process_constraints (Many [0; 1]) ["b"; "a"; "b"] two_records.
Proof.
  apply (process_constraints_fields_set (Many [0; 1]) ["a"; "b"] ["b"; "a"; "b"]).
  intros f. rewrite !elem_of_cons, !elem_of_nil. tauto.
Defined.

(** X7: the extraction is not to be repeated.  A second call on the same
    dicts finds the constrained fields gone and puts an empty dict under
    'constraints': the values moved by the first call are then in the dict
    no more. *)
Theorem process_constraints_twice data constraint_fields σ a obj :
  NoDup (objects_of data) → a ∈ objects_of data → σ !! a = Some obj →
  "constraints" ∉ constraint_fields →
  let σ1 := (process_constraints data constraint_fields σ).2 in
  ∃ obj2,
    (process_constraints data constraint_fields σ1).2 !! a = Some obj2 ∧
    obj2 !! "constraints" = Some (VDict ∅) ∧
    (∀ k, k ≠ "constraints" →
       obj2 !! k = if decide (k ∈ constraint_fields) then None else obj !! k).
Proof.
  intros Hnd Hin Hobj Hnot σ1. subst σ1. unfold process_constraints. cbn [snd].
  rewrite !constrain_objects_lookup, !decide_True, Hobj by done. cbn.
  eexists. split; [done|].
  destruct (constrain_lookup constraint_fields obj) as (cs1 & _ & _ & Hother1).
  destruct (constrain_lookup constraint_fields (constrain constraint_fields obj))
    as (cs2 & Hcs2 & Hfields2 & Hother2).
  assert (cs2 = ∅) as ->.
  { apply map_eq. intros f. rewrite Hfields2, lookup_empty. case_decide as Hf; [|done].
    rewrite Hother1 by (by intros ->). by rewrite decide_True. }
  split; [done|]. intros k Hk. rewrite Hother2, Hother1 by done. by case_decide.
Qed.

Lemma process_constraints_twice_witness :
  ∃ obj2,
    (process_constraints (Many [0; 1]) ["a"]
       (process_constraints (Many [0; 1]) ["a"] two_records).2).2 !! 0 = Some obj2 ∧
    obj2 !! "constraints" = Some (VDict ∅) ∧
    (∀ k, k ≠ "constraints" →
       obj2 !! k = if decide (k ∈ ["a"]) then None else ({[ "a" := VInt 1 ]} : record) !! k).
Proof.
  assert (Hnd : NoDup [0; 1]) by compute_done.
  assert (Hin : 0 ∈ [0; 1]) by compute_done.
  assert (Hnot : "constraints" ∉ ["a"]) by compute_done.
  exact (process_constraints_twice (Many [0; 1]) ["a"] two_records 0
           {[ "a" := VInt 1 ]} Hnd Hin eq_refl Hnot).
Defined.

End ConstraintsMore.

(** ** More on the attribute parser *)

Section AttributeParserMore.

Context {order : IterOrder}.

(** What a call does, with the keys of the tokens accepted. *)
Lemma transform_attributes_outcome value σ :
  (∃ e, tokens_of value = Raise e ∧ transform_attributes value σ = (Raise e, σ))
  ∨ (∃ tokens, tokens_of value = Ok tokens ∧
       Forall (λ attr, key_of attr ≠ "") (set_iter tokens) ∧
       transform_attributes value σ =
         (Ok (insert_pairs (pair_of <$> set_iter tokens) ∅),
          Some (default [] σ ++ (pair_of <$> set_iter tokens))))
  ∨ (∃ tokens accepted attr rest, tokens_of value = Ok tokens ∧
       set_iter tokens = accepted ++ attr :: rest ∧
       Forall (λ a, key_of a ≠ "") accepted ∧ key_of attr = "" ∧
       transform_attributes value σ =
         (Raise (UsageError (invalid_attribute attr)),
          Some (default [] σ ++ (pair_of <$> accepted)))).
Proof.
  rewrite transform_attributes_tokens.
  destruct (tokens_of value) as [tokens|e]; [|left; by exists e]. right.
  destruct (decide (Exists (λ attr, key_of attr = "") (set_iter tokens))) as [Hex|Hno].
  - right. destruct (transform_items_reject _ ∅ (default [] σ) Hex)
      as (accepted & attr & rest & ? & ? & ? & ?). by exists tokens, accepted, attr, rest.
  - left. apply not_Exists_Forall in Hno; [|apply _].
    exists tokens. split_and!; [done|done|]. by apply transform_items_accept.
Qed.

(** X8: the parse log only grows.  A call leaves the root context as it
    found it when the argument cannot be split into tokens; in every other
    case, failure included, the log is the log there was (the empty one when
    there was none) followed by the pairs of the tokens accepted, each of
    which has a key. *)
Theorem transform_attributes_log_grows value σ :
  (∃ e, transform_attributes value σ = (Raise e, σ) ∧ tokens_of value = Raise e)
  ∨ (∃ tokens accepted,
       tokens_of value = Ok tokens ∧
       (transform_attributes value σ).2 = Some (default [] σ ++ (pair_of <$> accepted)) ∧
       NoDup accepted ∧
       Forall (λ attr, attr ∈ tokens ∧ key_of attr ≠ "") accepted).
Proof.
  destruct (transform_attributes_outcome value σ)
    as [(e & He & Heq)|[(tokens & Htok & Hall & Heq)
       |(tokens & accepted & attr & rest & Htok & Hitems & Hall & Hkey & Heq)]].
  - left. by exists e.
  - right. exists tokens, (set_iter tokens). rewrite Heq. split_and!; [done|done| |].
    + apply set_iter_NoDup.
    + apply Forall_forall. intros attr Hin. split.
      * by apply set_iter_elem.
      * by eapply Forall_forall in Hall.
  - right. exists tokens, accepted. rewrite Heq. split_and!; [done|done| |].
    + pose proof (set_iter_NoDup tokens) as Hnd. rewrite Hitems in Hnd.
      by apply NoDup_app in Hnd as [? _].
    + apply Forall_forall. intros a Hin. split.
      * apply set_iter_elem. rewrite Hitems. apply elem_of_app. by left.
      * by eapply Forall_forall in Hall.
Qed.

(** X9: every entry of a returned map is read off a token of the argument:
    its key is not empty and holds no '='; its value is a string; and the
    token is the key, '=' and the value, or the key alone when it has no
    '=', the value being empty then. *)
Theorem transform_attributes_entries value σ attrs σ' :
  transform_attributes value σ = (Ok attrs, σ') →
  ∃ tokens, tokens_of value = Ok tokens ∧
    ∀ key v, attrs !! key = Some v →
      ∃ token s,
        token ∈ tokens ∧ v = VStr s ∧ key ≠ "" ∧
        (("=" : ascii) ∉ list_ascii_of_string key) ∧
        (token = key +:+ "=" +:+ s
         ∨ (token = key ∧ s = "" ∧ ("=" : ascii) ∉ list_ascii_of_string token)).
Proof.
  intros Hok.
  destruct (transform_attributes_outcome value σ)
    as [(e & He & Heq)|[(tokens & Htok & Hall & Heq)
       |(tokens & accepted & attr & rest & Htok & Hitems & Hall & Hkey & Heq)]];
    [congruence| |congruence].
  rewrite Heq in Hok. injection Hok as <- <-.
  exists tokens. split; [done|]. intros key v Hlookup.
  apply insert_pairs_lookup in Hlookup as [Hlookup|Hin]; [by rewrite lookup_empty in Hlookup|].
  apply list_elem_of_fmap in Hin as (token & [= -> ->] & Hin).
  exists token, (val_of token). split_and!.
  - by apply set_iter_elem.
  - done.
  - by eapply Forall_forall in Hall.
  - apply key_of_no_equals.
  - pose proof (partition_concat "=" token) as Hcat.
    destruct (partition_separator "=" token) as [Hsep|[Hnot Hwhole]].
    + left. rewrite Hsep in Hcat. exact Hcat.
    + right. unfold key_of, val_of. by rewrite Hwhole.
Qed.

(** The pair a map holds for a key is the last one inserted for it. *)
Lemma insert_pairs_lookup_last ps (attrs : record) key v :
  insert_pairs ps attrs !! key = Some v →
  (attrs !! key = Some v ∧ key ∉ ps.*1)
  ∨ ∃ before after, ps = before ++ (key, v) :: after ∧ key ∉ after.*1.
Proof.
  revert attrs. induction ps as [|[k w] ps IH]; intros attrs; cbn.
  - intros ?. left. split; [done|apply not_elem_of_nil].
  - fold (insert_pairs ps (<[k:=w]> attrs)).
    intros [[Hm Hnot]|(before & after & -> & Hnot)]%IH.
    + destruct (decide (k = key)) as [->|Hne].
      * rewrite lookup_insert_eq in Hm. injection Hm as ->.
        right. by exists [], ps.
      * rewrite lookup_insert_ne in Hm by done. left. split; [done|].
        rewrite not_elem_of_cons. split; [congruence|done].
    + right. by exists ((k, w) :: before), after.
Qed.

(** X10: the returned map and the parse log agree, the last pair logged
    for a key being the one the map holds: when a call succeeds, the pairs
    it has appended to the log are such that the map has [v] under [key]
    exactly when [(key, v)] is among them with no later pair for [key]. *)
Theorem transform_attributes_last_wins value σ attrs σ' :
  transform_attributes value σ = (Ok attrs, σ') →
  ∃ new,
    σ' = Some (default [] σ ++ new) ∧
    ∀ key v,
      attrs !! key = Some v ↔
      ∃ before after, new = before ++ (key, v) :: after ∧ key ∉ after.*1.
Proof.
  intros Hok.
  destruct (transform_attributes_outcome value σ)
    as [(e & He & Heq)|[(tokens & Htok & Hall & Heq)
       |(tokens & accepted & attr & rest & Htok & Hitems & Hall & Hkey & Heq)]];
    [congruence| |congruence].
  rewrite Heq in Hok. injection Hok as <- <-.
  exists (pair_of <$> set_iter tokens). split; [done|]. intros key v. split.
  - intros [[Hm _]|Hlast]%insert_pairs_lookup_last; [by rewrite lookup_empty in Hm|done].
  - intros (before & after & -> & Hnot). by apply insert_pairs_last.
Qed.

(** X11: the exceptions of the attribute parser.  It raises a [TypeError]
    (the argument is no string and cannot be iterated), an [AttributeError]
    (an element is no string) or the [UsageError] whose message names a
    token of the argument that has no key, and nothing else. *)
Theorem transform_attributes_errors value σ e σ' :
  transform_attributes value σ = (Raise e, σ') →
  (e = TypeError ∧ σ' = σ) ∨ (e = AttributeError ∧ σ' = σ)
  ∨ ∃ tokens attr,
      tokens_of value = Ok tokens ∧ attr ∈ tokens ∧ key_of attr = "" ∧
      e = UsageError ("Invalid attribute: " +:+ attr +:+ "; format should be key=value").
Proof.
  intros Hraise.
  destruct (transform_attributes_outcome value σ)
    as [(e' & He & Heq)|[(tokens & Htok & Hall & Heq)
       |(tokens & accepted & attr & rest & Htok & Hitems & Hall & Hkey & Heq)]];
    [| congruence |].
  - rewrite Heq in Hraise. injection Hraise as <- <-.
    apply tokens_of_raise in He as [->| ->]; [by left|right; by left].
  - rewrite Heq in Hraise. injection Hraise as <- <-. right; right.
    exists tokens, attr. split_and!; [done| |done|done].
    apply set_iter_elem. rewrite Hitems. apply elem_of_app. right. by left.
Qed.

Lemma split_trailing p :
  ∃ w ws, PyStr.split "," (p +:+ ",") = w :: ws ∧ "" ∈ ws.
Proof.
  induction p as [|c p (w & ws & IH & Hin)].
  - exists "", [""]. split; [done|by left].
  - change (String c p +:+ ",") with (String c (p +:+ ",")). cbn [PyStr.split].
    rewrite IH. destruct (Ascii.eqb c ",").
    + exists "", (w :: ws). split; [done|by right].
    + by exists (String c w), ws.
Qed.

(** X12: an empty token makes the call fail.  When an element of a sequence
    of strings has an empty piece between its commas, the call raises a
    [UsageError]; so it does for an empty string and for a string that ends
    with a comma. *)
Theorem transform_attributes_empty_token (l : list string) σ :
  (∀ s, s ∈ l → "" ∈ PyStr.split "," s →
     ∃ msg σ', transform_attributes (VList (VStr <$> l)) σ = (Raise (UsageError msg), σ'))
  ∧ "" ∈ PyStr.split "," ""
  ∧ (∀ p, "" ∈ PyStr.split "," (p +:+ ",")).
Proof.
  split.
  - intros s Hs Hempty.
    assert (Hin : "" ∈ concat (PyStr.split "," <$> l)).
    { clear -Hs Hempty. induction l as [|s' l IH]; [by apply elem_of_nil in Hs|].
      cbn. apply elem_of_app. apply elem_of_cons in Hs as [->|Hs]; [by left|].
      right. by apply IH. }
    destruct (transform_attributes_outcome (VList (VStr <$> l)) σ)
      as [(e & He & Heq)|[(tokens & Htok & Hall & Heq)
         |(tokens & accepted & attr & rest & Htok & Hitems & Hall & Hkey & Heq)]].
    + by rewrite tokens_of_strings in He.
    + rewrite tokens_of_strings in Htok. injection Htok as <-.
      apply (proj2 (set_iter_elem _ _)) in Hin.
      eapply Forall_forall in Hall; [|exact Hin]. by destruct Hall.
    + rewrite Heq. by eauto.
  - split; [by left|]. intros p.
    destruct (split_trailing p) as (w & ws & -> & Hin). by right.
Qed.

End AttributeParserMore.

Lemma transform_attributes_entries_witness :
  ∃ tokens, tokens_of (VStr "owner=netops,env=prod") = Ok tokens ∧
    ∀ key v,
      ({[ "owner" := VStr "netops"; "env" := VStr "prod" ]} : record) !! key = Some v →
      ∃ token s,
        token ∈ tokens ∧ v = VStr s ∧ key ≠ "" ∧
        (("=" : ascii) ∉ list_ascii_of_string key) ∧
        (token = key +:+ "=" +:+ s
         ∨ (token = key ∧ s = "" ∧ ("=" : ascii) ∉ list_ascii_of_string token)).
Proof.
  apply (transform_attributes_entries (order := default_order)
           (VStr "owner=netops,env=prod") None
           {[ "owner" := VStr "netops"; "env" := VStr "prod" ]}
           (Some [("owner", VStr "netops"); ("env", VStr "prod")])).
  vm_compute. reflexivity.
Defined.

Lemma transform_attributes_last_wins_witness :
  ∃ new,
    Some [("a", VStr "1"); ("a", VStr "2=3")] = Some (default [] None ++ new) ∧
    ∀ key v,
      ({[ "a" := VStr "2=3" ]} : record) !! key = Some v ↔
      ∃ before after, new = before ++ (key, v) :: after ∧ key ∉ after.*1.
Proof.
  apply (transform_attributes_last_wins (order := default_order)
           (VList [VStr "a=1"; VStr "a=2=3"]) None {[ "a" := VStr "2=3" ]}
           (Some [("a", VStr "1"); ("a", VStr "2=3")])).
  vm_compute. reflexivity.
Defined.

Lemma transform_attributes_errors_witness :
  (TypeError = TypeError ∧ (None : parse_log) = None)
  ∨ (TypeError = AttributeError ∧ (None : parse_log) = None)
  ∨ ∃ tokens attr,
      tokens_of VNone = Ok tokens ∧ attr ∈ tokens ∧ key_of attr = "" ∧
      TypeError = UsageError ("Invalid attribute: " +:+ attr +:+ "; format should be key=value").
Proof.
  apply (transform_attributes_errors (order := default_order) VNone None TypeError None).
  reflexivity.
Defined.

(** ** More on the bulk record loader *)

Section RowsMore.

Lemma DictReader_rows_blank (fieldnames : list string) (line_nums : list nat)
    (rest : csv_rows) :
  DictReader_rows fieldnames (blank_lines line_nums ++ rest) = DictReader_rows fieldnames rest.
Proof. induction line_nums as [|n line_nums IH]; [done|]. cbn. exact IH. Qed.

(** Every row gone through is made of a line of the file that is not
    empty, with its line number. *)
Lemma DictReader_rows_elem (fieldnames : list string) (rest : csv_rows) (lr : nat * row) :
  lr ∈ DictReader_rows fieldnames rest →
  ∃ fields, fields ≠ [] ∧ (lr.1, fields) ∈ rest ∧ lr.2 = make_row fieldnames fields.
Proof.
  induction rest as [|[n fields] rest IH]; cbn; [by intros ?%elem_of_nil|].
  destruct fields as [|f fields].
  - intros (fs & ? & ? & ?)%IH. exists fs. split_and!; [done| |done]. by right.
  - intros [->|(fs & ? & ? & ?)%IH]%elem_of_cons.
    + exists (f :: fields). split_and!; [done| |done]. by left.
    + exists fs. split_and!; [done| |done]. by right.
Qed.

Lemma dict_of_pairs_lookup (pairs : list (option string * pyval)) (d : row)
    (k : option string) (v : pyval) :
  foldl (λ d kv, <[kv.1 := kv.2]> d) d pairs !! k = Some v → d !! k = Some v ∨ (k, v) ∈ pairs.
Proof.
  revert d. induction pairs as [|[k' v'] pairs IH]; intros d; cbn; [by left|].
  intros [H|H]%IH.
  - rewrite lookup_insert in H. case_decide; simplify_eq.
    + right. by left.
    + by left.
  - right. by right.
Qed.

(** The values of a row as the reader makes it: the strings of the file,
    [None] for a missing field, a list under the key [None]. *)
Lemma make_row_values (fieldnames fields : list string) (k : option string) (v : pyval) :
  make_row fieldnames fields !! k = Some v →
  (∃ s, v = VStr s) ∨ v = VNone ∨ (k = None ∧ ∃ l, v = VList l).
Proof.
  assert (Hpairs : ∀ k v,
            dict_of_pairs (zip (Some <$> fieldnames) (VStr <$> fields)) !! k = Some v →
            ∃ s, v = VStr s).
  { intros k' v' [Hin|Hin]%dict_of_pairs_lookup; [by rewrite lookup_empty in Hin|].
    apply elem_of_zip_r in Hin. apply list_elem_of_fmap in Hin as (s & -> & _). by exists s. }
  unfold make_row. destruct (_ <? _)%nat.
  - rewrite lookup_insert. case_decide as Hk.
    + intros [= <-]. right; right. split; [done|]. by eexists.
    + intros Hv. left. by eapply Hpairs.
  - destruct (_ <? _)%nat; [|intros Hv; left; by eapply Hpairs].
    destruct k as [key|].
    + rewrite lookup_restval. case_decide; [intros [= <-]; right; by left|].
      intros Hv. left. by eapply Hpairs.
    + assert (Hnone : ∀ keys (d : row),
                foldl (λ d key, <[Some key := VNone]> d) d keys !! None = d !! None).
      { intros keys. induction keys as [|key keys IH]; intros d; [done|].
        cbn. by rewrite IH, lookup_insert_ne. }
      rewrite Hnone. intros Hv. left. by eapply Hpairs.
Qed.

(** The loop over the items ends well on strings and dicts only, the
    strings that look boolean being [True] or [False] as spelt. *)
Lemma coerce_booleans_Ok_items (lineno : nat) (items : list (option string * pyval))
    (r r' : row) :
  coerce_booleans lineno items r = Ok r' →
  Forall (λ kv, match kv.2 with
                | VStr s => looks_boolean s = true → s = "True" ∨ s = "False"
                | VDict _ => True
                | _ => False
                end) items.
Proof.
  revert r. induction items as [|[k v] items IH]; intros r; [constructor|].
  cbn [coerce_booleans]. destruct v as [| | |s| |d]; try done.
  - destruct (looks_boolean s) eqn:Hs.
    + destruct (literal_eval_looks_boolean s Hs) as [[-> ->]|[[-> ->]|(_ & _ & ->)]];
        cbn; [| |done]; intros H%IH; constructor; cbn; auto.
    + intros H%IH. constructor; [|done]. cbn. congruence.
  - intros H%IH. by constructor.
Qed.

(** It raises the [BadParameter] of its line or a [ValueError]. *)
Lemma coerce_booleans_Raise (lineno : nat) (items : list (option string * pyval))
    (r : row) (e : exn) :
  coerce_booleans lineno items r = Raise e →
  e = BadParameter (error_parsing_file lineno) ∨ e = ValueError.
Proof.
  revert r. induction items as [|[k v] items IH]; intros r; [done|].
  cbn [coerce_booleans]. destruct v as [| | |s| |d]; try (by intros [= <-]; left).
  - destruct (looks_boolean s) eqn:Hs; [|apply IH].
    destruct (literal_eval_looks_boolean s Hs) as [[-> ->]|[[-> ->]|(_ & _ & ->)]];
      cbn; [apply IH|apply IH|]. intros [= <-]. by right.
  - apply IH.
Qed.

End RowsMore.

Section BulkLoaderMore.

Context {order : IterOrder}.

Lemma DictReader_rows_elem_of (fieldnames : list string) (rest : csv_rows)
    (n : nat) (fields : list string) :
  (n, fields) ∈ rest → fields ≠ [] →
  (n, make_row fieldnames fields) ∈ DictReader_rows fieldnames rest.
Proof.
  induction rest as [|[m fs] rest IH]; [by intros ?%elem_of_nil|].
  intros [[= -> ->]|Hin]%elem_of_cons Hne; cbn.
  - destruct fs; [done|]. by left.
  - destruct fs; [by apply IH|]. right. by apply IH.
Qed.

Lemma DictReader_rows_length (fieldnames : list string) (rest : csv_rows) :
  length (DictReader_rows fieldnames rest) = length (filter (λ line, line.2 ≠ []) rest).
Proof.
  induction rest as [|[m fs] rest IH]; [done|]. cbn [DictReader_rows].
  destruct fs as [|f fs].
  - rewrite filter_cons_False by (cbn; auto). exact IH.
  - rewrite filter_cons_True by done. cbn. by rewrite IH.
Qed.

Lemma Forall2_elem_l {A B} (P : A → B → Prop) l k x :
  Forall2 P l k → x ∈ l → ∃ y, y ∈ k ∧ P x y.
Proof.
  induction 1 as [|a b l k Hab _ IH]; [by intros ?%elem_of_nil|].
  intros [->|(y & ? & ?)%IH]%elem_of_cons.
  - exists b. split; [by left|done].
  - exists y. split; [by right|done].
Qed.

Lemma Forall2_elem_r {A B} (P : A → B → Prop) l k y :
  Forall2 P l k → y ∈ k → ∃ x, x ∈ l ∧ P x y.
Proof.
  induction 1 as [|a b l k Hab _ IH]; [by intros ?%elem_of_nil|].
  intros [->|(x & ? & ?)%IH]%elem_of_cons.
  - exists a. split; [by left|done].
  - exists x. split; [by right|done].
Qed.

(** A record the body of the loop appends, with what its fields were. *)
Lemma process_row_Ok_values (parent_resource_name : string) (fieldnames : list string)
    (lineno : nat) (r obj : row) (σ σ' : parse_log) :
  process_row parent_resource_name fieldnames lineno r σ = (Ok obj, σ') →
  size r = length fieldnames ∧
  ∃ r1 : row,
    obj = coerced <$> r1 ∧
    (∀ k v, r1 !! k = Some v →
       match v with
       | VStr s => looks_boolean s = true → s = "True" ∨ s = "False"
       | VDict _ => True
       | _ => False
       end) ∧
    ((parent_resource_name ∈ NO_ATTRIBUTES ∧ r1 = r ∧ σ' = σ)
     ∨ ((parent_resource_name ∉ NO_ATTRIBUTES) ∧
        ∃ value attrs,
          r !! Some "attributes" = Some value ∧
          transform_attributes value σ = (Ok attrs, σ') ∧
          r1 = <[Some "attributes" := VDict attrs]> r)).
Proof.
  unfold process_row. destruct (Nat.eqb_spec (size r) (length fieldnames)) as [Hsize|]; [|done].
  cbn [negb]. intros Heq. split; [done|].
  assert (Hitems : ∀ r1 r' : row, coerce_booleans lineno (dict_iter r1) r1 = Ok r' →
            ∀ k v, r1 !! k = Some v →
              match v with
              | VStr s => looks_boolean s = true → s = "True" ∨ s = "False"
              | VDict _ => True
              | _ => False
              end).
  { intros r1 r' Hc k v Hkv. apply coerce_booleans_Ok_items in Hc.
    apply (proj1 (Forall_forall _ _)) with (x := (k, v)) in Hc; [exact Hc|].
    rewrite dict_iter_perm. by apply elem_of_map_to_list. }
  case_bool_decide as Hname.
  - unfold mbind, M_bind, lift, getitem in Heq.
    destruct (r !! Some "attributes") as [value|] eqn:Hvalue; [|done].
    destruct (transform_attributes value σ) as [[attrs|e] σ1] eqn:Hattrs; [|done].
    cbn in Heq.
    destruct (coerce_booleans lineno _ _) as [r'|e] eqn:Hc; [|done].
    injection Heq as <- <-.
    exists (<[Some "attributes" := VDict attrs]> r). split_and!.
    + by apply coerce_booleans_row in Hc.
    + by eapply Hitems.
    + right. split; [done|]. by exists value, attrs.
  - unfold mbind, M_bind, lift in Heq. cbn in Heq.
    destruct (coerce_booleans lineno _ _) as [r'|e] eqn:Hc; [|done].
    injection Heq as <- <-. exists r. split_and!.
    + by apply coerce_booleans_row in Hc.
    + by eapply Hitems.
    + left. by split_and!.
Qed.

(** The ways the body of the loop raises. *)
Lemma process_row_Raise (parent_resource_name : string) (fieldnames : list string)
    (lineno : nat) (r : row) (e : exn) (σ σ' : parse_log) :
  process_row parent_resource_name fieldnames lineno r σ = (Raise e, σ') →
  (e = BadParameter (wrong_number_of_fields lineno) ∧ σ' = σ)
  ∨ (e = KeyError "attributes" ∧ r !! Some "attributes" = None ∧ σ' = σ)
  ∨ (∃ value, r !! Some "attributes" = Some value ∧
       transform_attributes value σ = (Raise e, σ'))
  ∨ e = BadParameter (error_parsing_file lineno) ∨ e = ValueError.
Proof.
  unfold process_row. destruct (Nat.eqb_spec (size r) (length fieldnames)) as [Hsize|];
    [|intros [= <- <-]; by left].
  cbn [negb]. intros Heq. right.
  case_bool_decide as Hname.
  - unfold mbind, M_bind, lift, getitem in Heq.
    destruct (r !! Some "attributes") as [value|] eqn:Hvalue;
      [|injection Heq as <- <-; by left].
    right. destruct (transform_attributes value σ) as [[attrs|e'] σ1] eqn:Hattrs.
    + cbn in Heq. destruct (coerce_booleans lineno _ _) as [r'|e'] eqn:Hc; [done|].
      injection Heq as <- <-. right. by eapply coerce_booleans_Raise.
    + injection Heq as <- <-. left. by exists value.
  - unfold mbind, M_bind, lift in Heq. cbn in Heq.
    destruct (coerce_booleans lineno _ _) as [r'|e'] eqn:Hc; [done|].
    injection Heq as <- <-. right; right. by eapply coerce_booleans_Raise.
Qed.

End BulkLoaderMore.

Section BulkLoaderExtras.

Context {order : IterOrder}.

(** X13: a file without data rows gives no record and leaves the parse log
    alone: no file at all gives [None]; an empty file, a header alone and a
    header followed by empty lines give the empty list. *)
Theorem process_bulk_add_no_rows (parent_resource_name : string) (σ : parse_log) :
  process_bulk_add parent_resource_name None σ = (Ok None, σ)
  ∧ process_bulk_add parent_resource_name (Some []) σ = (Ok (Some []), σ)
  ∧ (∀ (n : nat) (fieldnames : list string) (line_nums : list nat),
       process_bulk_add parent_resource_name
         (Some ((n, fieldnames) :: blank_lines line_nums)) σ = (Ok (Some []), σ)).
Proof.
  split_and!; [done|done|]. intros n fieldnames line_nums.
  unfold process_bulk_add. cbn [DictReader_iter DictReader_fieldnames].
  rewrite <- (app_nil_r (blank_lines line_nums)), DictReader_rows_blank. done.
Qed.

(** The record of a row that went through. *)
Lemma record_of_row (parent_resource_name : string) (fieldnames fields : list string)
    (n : nat) (obj : row) :
  NoDup fieldnames →
  transformed parent_resource_name fieldnames (n, make_row fieldnames fields) obj →
  length fields = length fieldnames ∧
  dom obj = list_to_set (Some <$> fieldnames) ∧
  ∀ k v, obj !! k = Some v →
    (∃ s, v = VStr s ∧ looks_boolean s = false) ∨ (∃ b, v = VBool b)
    ∨ (∃ d, v = VDict d ∧ k = Some "attributes" ∧ parent_resource_name ∉ NO_ATTRIBUTES).
Proof.
  intros Hnd (σ & σ' & Hrow). cbn [fst snd] in Hrow.
  apply process_row_Ok_values in Hrow as (Hsize & r1 & -> & Hvals & Hcase).
  rewrite size_make_row in Hsize by done.
  set (r := make_row fieldnames fields) in *.
  destruct (Nat.ltb_spec (length fieldnames) (length fields)) as [Hlong|Hnotlong]; [lia|].
  assert (Hdom1 : dom r1 = dom r).
  { destruct Hcase as [(_ & -> & _)|(_ & value & attrs & Hvalue & _ & ->)]; [done|].
    apply dom_insert_lookup_L. by eexists. }
  assert (Hr1 : ∀ k v, r1 !! k = Some v → (∃ d, v = VDict d) →
            k = Some "attributes" ∧ parent_resource_name ∉ NO_ATTRIBUTES).
  { intros k v Hkv [d ->].
    destruct Hcase as [(_ & -> & _)|(Hname & value & attrs & Hvalue & _ & ->)].
    - apply make_row_values in Hkv as [[? [=]]|[[=]|[_ [? [=]]]]].
    - destruct (decide (k = Some "attributes")) as [->|Hne]; [done|].
      rewrite lookup_insert_ne in Hkv by done.
      apply make_row_values in Hkv as [[? [=]]|[[=]|[_ [? [=]]]]]. }
  split_and!.
  - destruct (decide (length fields = length fieldnames)) as [|Hne]; [done|]. exfalso.
    assert (length fields < length fieldnames) as Hshort by lia.
    destruct (drop (length fields) fieldnames) as [|f rest] eqn:Hdrop.
    { apply (f_equal length) in Hdrop. rewrite length_drop in Hdrop. cbn in Hdrop. lia. }
    assert (Hf : r !! Some f = Some VNone).
    { apply make_row_missing. rewrite Hdrop. by left. }
    destruct Hcase as [(_ & -> & _)|(_ & value & attrs & Hvalue & Hattrs & ->)].
    + by apply Hvals in Hf.
    + destruct (decide (f = "attributes")) as [->|Hfne].
      * rewrite Hf in Hvalue. injection Hvalue as <-.
        by rewrite transform_attributes_tokens in Hattrs.
      * apply (Hvals (Some f) VNone). rewrite lookup_insert_ne by congruence. done.
  - rewrite dom_fmap_L, Hdom1. unfold r. rewrite dom_make_row.
    rewrite (proj2 (Nat.ltb_ge _ _)) by lia. by rewrite (right_id_L ∅ (∪)).
  - intros k v. rewrite lookup_fmap. destruct (r1 !! k) as [v1|] eqn:Hk; [|done].
    intros [= <-]. pose proof (Hvals k v1 Hk) as Hv1.
    destruct v1 as [| | |s| |d]; try done.
    + cbn. destruct (looks_boolean s) eqn:Hs.
      * right; left. destruct (Hv1 eq_refl) as [-> | ->]; by eexists.
      * left. by exists s.
    + right; right. exists d. destruct (Hr1 k (VDict d) Hk) as [-> ?]; [by eexists|done].
Qed.

(** X14: the records of a load that succeeds, for a header of distinct
    field names.  Every line of the file after the header is empty or has
    exactly as many fields as the header; there is one record for each line
    that is not empty; the keys of each record are the field names, and its
    values are strings that do not look boolean, booleans, and, under
    'attributes' when the objects have attributes, a dict. *)
Theorem process_bulk_add_records (parent_resource_name : string) (stream : csv_rows)
    (σ σ' : parse_log) (objects : list row) :
  NoDup (DictReader_fieldnames stream) →
  process_bulk_add parent_resource_name (Some stream) σ = (Ok (Some objects), σ') →
  Forall (λ line, line.2 = [] ∨ length line.2 = length (DictReader_fieldnames stream))
    (tail stream)
  ∧ length objects = length (filter (λ line, line.2 ≠ []) (tail stream))
  ∧ Forall (λ obj : row,
      dom obj = list_to_set (Some <$> DictReader_fieldnames stream) ∧
      ∀ k v, obj !! k = Some v →
        (∃ s, v = VStr s ∧ looks_boolean s = false) ∨ (∃ b, v = VBool b)
        ∨ (∃ d, v = VDict d ∧ k = Some "attributes" ∧
             parent_resource_name ∉ NO_ATTRIBUTES)) objects.
Proof.
  intros Hnd Hok. unfold process_bulk_add, mbind, M_bind in Hok.
  destruct (bulk_loop_cases parent_resource_name (DictReader_fieldnames stream)
              (DictReader_iter stream) [] σ)
    as [(new & σ1 & Heq & Hall)|(e & σ1 & pre & lr & rest & parsed & Heq & _)];
    rewrite Heq in Hok; [|done].
  injection Hok as <- <-. cbn [app] in *.
  destruct stream as [|[n0 fieldnames] rest].
  { apply Forall2_nil_inv_l in Hall as ->. by split_and!. }
  cbn [DictReader_fieldnames DictReader_iter tail] in *. split_and!.
  - apply Forall_forall. intros [n fields] Hin. cbn.
    destruct fields as [|f fields]; [by left|]. right.
    pose proof (DictReader_rows_elem_of fieldnames rest n (f :: fields) Hin) as Hrow.
    destruct (Forall2_elem_l _ _ _ _ Hall (Hrow ltac:(done))) as (obj & _ & Hobj).
    by destruct (record_of_row _ _ _ _ _ Hnd Hobj) as [? _].
  - rewrite <- (Forall2_length _ _ _ Hall). apply DictReader_rows_length.
  - apply Forall_forall. intros obj Hin.
    destruct (Forall2_elem_r _ _ _ _ Hall Hin) as ([n r] & Hrow & Hobj).
    apply DictReader_rows_elem in Hrow as (fields & _ & _ & Hr). cbn in Hr. subst r.
    by destruct (record_of_row _ _ _ _ _ Hnd Hobj) as (_ & ? & ?).
Qed.

(** The exceptions of the body of the loop, on the rows of a file. *)
Lemma bulk_rows_errors (parent_resource_name : string) (stream : csv_rows)
    (σ σ' : parse_log) (e : exn) :
  process_bulk_add parent_resource_name (Some stream) σ = (Raise e, σ') →
  ∃ (n : nat) (fields : list string),
    (n, fields) ∈ tail stream ∧ fields ≠ [] ∧
    (e = BadParameter ("File has wrong number of fields on line " +:+ PyStr.of_nat n)
     ∨ e = BadParameter ("Error parsing file on line " +:+ PyStr.of_nat n)
     ∨ (e = KeyError "attributes" ∧ "attributes" ∉ DictReader_fieldnames stream)
     ∨ (e = TypeError ∧
        "attributes" ∈ drop (length fields) (DictReader_fieldnames stream))
     ∨ e = ValueError
     ∨ ∃ attr, e = UsageError (invalid_attribute attr) ∧ key_of attr = "").
Proof.
  intros Hraise. unfold process_bulk_add, mbind, M_bind in Hraise.
  destruct (bulk_loop_cases parent_resource_name (DictReader_fieldnames stream)
              (DictReader_iter stream) [] σ)
    as [(new & σ1 & Heq & Hall)|(e' & σ1 & pre & lr & rest & parsed & Heq & Hrows & _ & Hrej)];
    rewrite Heq in Hraise; [done|].
  injection Hraise as <- <-.
  destruct stream as [|[n0 fieldnames] lines]; [by destruct pre|].
  cbn [DictReader_fieldnames DictReader_iter tail] in *.
  assert (Hin : lr ∈ DictReader_rows fieldnames lines).
  { rewrite Hrows. apply elem_of_app. right. by left. }
  apply DictReader_rows_elem in Hin as (fields & Hne & Hin & Hr).
  destruct lr as [n r]. cbn [fst snd] in *. subst r.
  exists n, fields. split_and!; [done|done|].
  destruct Hrej as (σ0 & σ0' & Hrow). cbn [fst snd] in Hrow.
  apply process_row_Raise in Hrow
    as [[-> _]|[(-> & Hnone & _)|[(value & Hvalue & Hattrs)|[->| ->]]]].
  - by left.
  - right; right; left. split; [done|]. intros Hattr.
    assert (Some "attributes" ∈ dom (make_row fieldnames fields)) as Hdom.
    { rewrite dom_make_row. apply elem_of_union. left.
      apply elem_of_list_to_set. by apply list_elem_of_fmap_2. }
    apply elem_of_dom in Hdom as [? Hsome]. congruence.
  - pose proof (make_row_values _ _ _ _ Hvalue) as [[s ->]|[->|[[=] _]]].
    + destruct (transform_attributes_outcome (VStr s) σ0)
        as [(e2 & He & _)|[(tokens & _ & _ & Heq')
           |(tokens & accepted & attr & rest' & _ & _ & _ & Hkey & Heq')]].
      * by cbn in He.
      * congruence.
      * rewrite Heq' in Hattrs. injection Hattrs as <- <-.
        do 5 right. by exists attr.
    + rewrite transform_attributes_tokens in Hattrs. injection Hattrs as <- <-.
      right; right; right; left. split; [done|].
      destruct (decide ("attributes" ∈ drop (length fields) fieldnames)) as [|Hnot]; [done|].
      exfalso. unfold make_row in Hvalue.
      destruct (Nat.ltb_spec (length fieldnames) (length fields)).
      * rewrite lookup_insert_ne in Hvalue by done.
        apply dict_of_pairs_lookup in Hvalue as [Hv|Hv]; [by rewrite lookup_empty in Hv|].
        apply elem_of_zip_r in Hv. by apply list_elem_of_fmap in Hv as (? & [=] & _).
      * destruct (Nat.ltb_spec (length fields) (length fieldnames)).
        -- rewrite lookup_restval, decide_False in Hvalue by done.
           apply dict_of_pairs_lookup in Hvalue as [Hv|Hv]; [by rewrite lookup_empty in Hv|].
           apply elem_of_zip_r in Hv. by apply list_elem_of_fmap in Hv as (? & [=] & _).
        -- apply dict_of_pairs_lookup in Hvalue as [Hv|Hv]; [by rewrite lookup_empty in Hv|].
           apply elem_of_zip_r in Hv. by apply list_elem_of_fmap in Hv as (? & [=] & _).
  - right; by left.
  - do 4 right. by left.
Qed.

(** A reading that the reader takes to the end of the file is a load of its
    rows. *)
Lemma process_bulk_add_reading_to_end (parent_resource_name : string) (stream : csv_rows) :
  process_bulk_add_reading parent_resource_name (Some (stream, None)) =
  process_bulk_add parent_resource_name (Some stream).
Proof. done. Qed.

(** A reading goes as the load of the rows read, and then raises what the
    reader raises. *)
Lemma process_bulk_add_reading_cases (parent_resource_name : string) (stream : csv_rows)
    (reading_end : option exn) (σ : parse_log) :
  let rows_outcome := process_bulk_add parent_resource_name (Some stream) σ in
  process_bulk_add_reading parent_resource_name (Some (stream, reading_end)) σ =
    match rows_outcome.1, reading_end with
    | Ok _, Some e => (Raise e, rows_outcome.2)
    | _, _ => rows_outcome
    end.
Proof.
  unfold process_bulk_add_reading, process_bulk_add, mbind, M_bind. cbn.
  destruct (bulk_loop _ _ _ _ _) as [[objects|e] σ1]; [|done].
  by destruct reading_end.
Qed.

(** X15: the exceptions of the bulk loader.  A load that fails either
    raises the exception with which the csv reader itself ended the
    reading, every row read before having been accepted; or fails on a line
    of the file after the header that is not empty, and raises the
    [BadParameter] of a wrong number of fields or of a parsing error, either
    with the number of that line; a [KeyError] when the header has no
    'attributes'; a [TypeError] when the row is too short to have its
    'attributes'; a [ValueError]; or the [UsageError] of an attribute without
    key. *)
Theorem process_bulk_add_errors (parent_resource_name : string) (stream : csv_rows)
    (reading_end : option exn) (σ σ' : parse_log) (e : exn) :
  process_bulk_add_reading parent_resource_name (Some (stream, reading_end)) σ
    = (Raise e, σ') →
  (reading_end = Some e ∧
   ∃ objects, process_bulk_add parent_resource_name (Some stream) σ = (Ok objects, σ'))
  ∨ ∃ (n : nat) (fields : list string),
    (n, fields) ∈ tail stream ∧ fields ≠ [] ∧
    (e = BadParameter ("File has wrong number of fields on line " +:+ PyStr.of_nat n)
     ∨ e = BadParameter ("Error parsing file on line " +:+ PyStr.of_nat n)
     ∨ (e = KeyError "attributes" ∧ "attributes" ∉ DictReader_fieldnames stream)
     ∨ (e = TypeError ∧
        "attributes" ∈ drop (length fields) (DictReader_fieldnames stream))
     ∨ e = ValueError
     ∨ ∃ attr, e = UsageError (invalid_attribute attr) ∧ key_of attr = "").
Proof.
  rewrite process_bulk_add_reading_cases. cbn zeta.
  destruct (process_bulk_add parent_resource_name (Some stream) σ) as [[objects|e'] σ1] eqn:Hrows;
    cbn [fst snd].
  - destruct reading_end as [e'|]; [|done]. intros [= <- <-]. left. split; [done|].
    by exists objects.
  - intros [= <- <-]. right. by eapply bulk_rows_errors.
Qed.

End BulkLoaderExtras.

Lemma process_bulk_add_records_witness :
  let stream := rows_of_lines ["cidr:is_ip:attributes";
                               "10.0.0.0/8:False:owner=netops,env=prod";
                               "";
                               "10.0.0.1/32:True:owner=jathan"] in
  let objects : list row :=
    [ {[ Some "cidr" := VStr "10.0.0.0/8"; Some "is_ip" := VBool false;
         Some "attributes" := VDict {[ "owner" := VStr "netops"; "env" := VStr "prod" ]} ]};
      {[ Some "cidr" := VStr "10.0.0.1/32"; Some "is_ip" := VBool true;
         Some "attributes" := VDict {[ "owner" := VStr "jathan" ]} ]} ] in
  Forall (λ line, line.2 = [] ∨ length line.2 = length (DictReader_fieldnames stream))
    (tail stream)
  ∧ length objects = length (filter (λ line, line.2 ≠ []) (tail stream))
  ∧ Forall (λ obj : row,
      dom obj = list_to_set (Some <$> DictReader_fieldnames stream) ∧
      ∀ k v, obj !! k = Some v →
        (∃ s, v = VStr s ∧ looks_boolean s = false) ∨ (∃ b, v = VBool b)
        ∨ (∃ d, v = VDict d ∧ k = Some "attributes" ∧ "networks" ∉ NO_ATTRIBUTES)) objects.
Proof.
  intros stream objects.
  assert (Hnd : NoDup (DictReader_fieldnames stream)) by compute_done.
  exact (process_bulk_add_records (order := default_order) "networks" stream None _ objects
           Hnd process_bulk_add_example).
Defined.

Lemma process_bulk_add_errors_witness :
  (None = Some TypeError ∧
   ∃ objects,
     process_bulk_add (order := default_order) "networks" (Some short_row_file) None
     = (Ok objects, None))
  ∨ ∃ (n : nat) (fields : list string),
    (n, fields) ∈ tail short_row_file ∧ fields ≠ [] ∧
    (TypeError = BadParameter ("File has wrong number of fields on line " +:+ PyStr.of_nat n)
     ∨ TypeError = BadParameter ("Error parsing file on line " +:+ PyStr.of_nat n)
     ∨ (TypeError = KeyError "attributes" ∧
        "attributes" ∉ DictReader_fieldnames short_row_file)
     ∨ (TypeError = TypeError ∧
        "attributes" ∈ drop (length fields) (DictReader_fieldnames short_row_file))
     ∨ TypeError = ValueError
     ∨ ∃ attr, TypeError = UsageError (invalid_attribute attr) ∧ key_of attr = "").
Proof.
  apply (process_bulk_add_errors (order := default_order) "networks" short_row_file
           None None None TypeError).
  reflexivity.
Defined.

Section BulkLoaderLines.

Context {order : IterOrder}.

Lemma process_row_attributeless (fieldnames : list string) (lineno : nat) (r : row)
    (σ : parse_log) :
  (process_row "attributes" fieldnames lineno r σ).2 = σ
  ∧ ∀ e, (process_row "attributes" fieldnames lineno r σ).1 = Raise e →
      e = BadParameter (wrong_number_of_fields lineno)
      ∨ e = BadParameter (error_parsing_file lineno) ∨ e = ValueError.
Proof.
  unfold process_row. destruct (negb _); [split; [done|]; intros e [= <-]; by left|].
  change (bool_decide ("attributes" ∉ NO_ATTRIBUTES)) with false.
  unfold mbind, M_bind, lift. cbn.
  destruct (coerce_booleans lineno (dict_iter r) r) as [r'|e'] eqn:Hc;
    (split; [done|]); intros e [= <-].
  right. by eapply coerce_booleans_Raise.
Qed.

Lemma bulk_loop_attributeless (fieldnames : list string) (rows : list (nat * row))
    (objects : list row) (σ : parse_log) :
  (bulk_loop "attributes" fieldnames rows objects σ).2 = σ
  ∧ ∀ e, (bulk_loop "attributes" fieldnames rows objects σ).1 = Raise e →
      ∃ lr, lr ∈ rows ∧
        (e = BadParameter (wrong_number_of_fields lr.1)
         ∨ e = BadParameter (error_parsing_file lr.1) ∨ e = ValueError).
Proof.
  revert objects. induction rows as [|[lineno r] rows IH]; intros objects; [by split|].
  cbn [bulk_loop]. unfold mbind, M_bind.
  destruct (process_row_attributeless fieldnames lineno r σ) as [Hσ Hraise].
  destruct (process_row "attributes" fieldnames lineno r σ) as [[obj|e'] σ1]; cbn in Hσ; subst σ1.
  - destruct (IH (objects ++ [obj])) as [IH1 IH2]. split; [done|].
    intros e (lr & ? & ?)%IH2. exists lr. split; [by right|done].
  - split; [done|]. intros e [= <-]. exists (lineno, r). split; [by left|]. by apply Hraise.
Qed.

(** X16: for objects that have no attributes the load leaves the parse log
    alone, whatever the file and however its reading ends, and fails with
    the exception with which the csv reader itself ended the reading, on a
    line with a wrong number of fields, on a field that is no string or on a
    boolean spelt otherwise than [True] or [False], and not otherwise: a
    missing 'attributes' column is no error then. *)
Theorem process_bulk_add_attributeless (value : option reading) (σ : parse_log) :
  (process_bulk_add_reading "attributes" value σ).2 = σ
  ∧ ∀ e, (process_bulk_add_reading "attributes" value σ).1 = Raise e →
      (∃ stream, value = Some (stream, Some e))
      ∨ ∃ n fields, (n, fields) ∈ tail (default [] (fst <$> value)) ∧
          (e = BadParameter ("File has wrong number of fields on line " +:+ PyStr.of_nat n)
           ∨ e = BadParameter ("Error parsing file on line " +:+ PyStr.of_nat n)
           ∨ e = ValueError).
Proof.
  destruct value as [[stream reading_end]|]; [|split; [done|intros e [=]]].
  unfold process_bulk_add_reading, mbind, M_bind. cbn [fmap option_fmap option_map default fst].
  destruct (bulk_loop_attributeless (DictReader_fieldnames stream) (DictReader_iter stream) [] σ)
    as [Hσ Hraise].
  destruct (bulk_loop "attributes" _ _ [] σ) as [[objs|e'] σ1]; cbn in Hσ; subst σ1.
  - destruct reading_end as [e'|]; (split; [done|]); intros e [= <-].
    left. by exists stream.
  - split; [done|]. intros e [= <-]. right.
    destruct (Hraise e' eq_refl) as ([n r] & Hin & He).
    destruct stream as [|[n0 fieldnames] lines]; [by apply elem_of_nil in Hin|].
    apply DictReader_rows_elem in Hin as (fields & _ & Hin & _).
    exists n, fields. by split_and!.
Qed.

(** X17: a line with more fields than a header of distinct names is
    reported: when it is the first line after the header that is not empty,
    the load raises the [BadParameter] of a wrong number of fields with the
    number of that line, and nothing has been logged. *)
Theorem process_bulk_add_long_row_cited (parent_resource_name : string) (n0 n : nat)
    (fieldnames fields : list string) (line_nums : list nat) (rest : csv_rows)
    (σ : parse_log) :
  NoDup fieldnames → length fieldnames < length fields →
  process_bulk_add parent_resource_name
    (Some ((n0, fieldnames) :: blank_lines line_nums ++ (n, fields) :: rest)) σ =
  (Raise (BadParameter ("File has wrong number of fields on line " +:+ PyStr.of_nat n)), σ).
Proof.
  intros Hnd Hlong. unfold process_bulk_add.
  cbn [DictReader_fieldnames DictReader_iter]. rewrite DictReader_rows_blank.
  cbn [DictReader_rows]. destruct fields as [|f fields]; [cbn in Hlong; lia|].
  cbn [bulk_loop]. unfold mbind, M_bind. by rewrite long_row_reported.
Qed.

End BulkLoaderLines.

Lemma process_bulk_add_long_row_cited_witness :
  process_bulk_add (order := default_order) "networks"
    (Some ((1, ["name"; "cidr"]) :: blank_lines [2; 3] ++ (4, ["a"; "b"; "c"]) :: [])) None =
  (Raise (BadParameter ("File has wrong number of fields on line " +:+ PyStr.of_nat 4)), None).
Proof.
  apply (process_bulk_add_long_row_cited (order := default_order) "networks" 1 4
           ["name"; "cidr"] ["a"; "b"; "c"] [2; 3] [] None).
  - compute_done.
  - cbn. lia.
Defined.

(** ** More on the natural-key resolver and the dispatcher *)

Section DispatchMore.

Variable get_single_object : record → option resource → result (option record).
Variable rebase : record → result unit * record.
Variable resource_error : resource → option exn.
Variable list_objects : record → list string → resource → result unit * record.

(** X18: the other outcomes of the resolver.  An exception of the Lookup
    Service goes through unchanged; an object without an 'id' key raises a
    [KeyError]; and an identifier that is returned is never [None]: it is
    the 'id' of the object the Lookup Service found. *)
Theorem get_resource_by_natural_key_outcomes (data : record) (resource_name : string)
    (res : option resource) :
  let outcome := get_resource_by_natural_key get_single_object data resource_name res in
  (∀ e, get_single_object data res = Raise e → outcome = Raise e)
  ∧ (∀ obj, get_single_object data res = Ok (Some obj) → obj !! "id" = None →
       outcome = Raise (KeyError "id"))
  ∧ (∀ resource_id, outcome = Ok resource_id →
       resource_id ≠ VNone ∧
       ∃ obj, get_single_object data res = Ok (Some obj) ∧ obj !! "id" = Some resource_id).
Proof.
  intros outcome. subst outcome. unfold get_resource_by_natural_key. split_and!.
  - by intros e ->.
  - intros obj -> Hid. cbn. unfold getitem. by rewrite Hid.
  - intros resource_id. destruct (get_single_object data res) as [[obj|]|e]; cbn; [| done..].
    unfold getitem. destruct (obj !! "id") as [v|] eqn:Hid; cbn; [|done].
    destruct v; try done; intros [= <-]; (split; [done|by exists obj]).
Qed.

(** What [list_subcommand] does, case by case. *)
Lemma list_subcommand_outcome (display_fields : list string) (my_name : option string)
    (ctx : context) :
  let given := params ctx ∪ parent_params ctx in
  let data := delete "id" given in
  let rebased := (rebase data).2 in
  let parent := app_parent_resource_name ctx in
  let lookup := LookupCall rebased (Some (Collection parent)) in
  let my_resource parent_resource_id :=
    Nested (Collection parent) parent_resource_id (default (info_name ctx) my_name) in
  let named := match my_name with Some name => Some name | None => app_resource_name ctx end in
  let after d resource_name new_calls :=
    MkContext d (params ctx) (info_name ctx) parent resource_name (calls ctx ++ new_calls) in
  let finish parent_resource_id earlier :=
    match resource_error (my_resource parent_resource_id) with
    | Some e => (Raise e, after rebased named earlier)
    | None =>
        ((list_objects rebased display_fields (my_resource parent_resource_id)).1,
         after (list_objects rebased display_fields (my_resource parent_resource_id)).2 named
           (earlier ++ [ListCall rebased display_fields (my_resource parent_resource_id)]))
    end in
  list_subcommand get_single_object rebase resource_error list_objects display_fields my_name
    ctx =
    match given !! "id" with
    | None =>
        (Raise (KeyError "id"),
         MkContext given (params ctx) (info_name ctx) parent (app_resource_name ctx) (calls ctx))
    | Some v =>
        match (rebase data).1 with
        | Raise e => (Raise e, after rebased (app_resource_name ctx) [Rebase data])
        | Ok _ =>
            match resource_error (Collection parent) with
            | Some e => (Raise e, after rebased named [Rebase data])
            | None =>
                match v with
                | VNone =>
                    match get_resource_by_natural_key get_single_object rebased parent
                            (Some (Collection parent)) with
                    | Ok parent_resource_id => finish parent_resource_id [Rebase data; lookup]
                    | Raise e => (Raise e, after rebased named [Rebase data; lookup])
                    end
                | _ => finish v [Rebase data]
                end
            end
        end
    end.
Proof.
  intros given data rebased parent lookup my_resource named after finish.
  subst finish after named my_resource lookup parent rebased data given.
  destruct ctx as [pp p iname pname rname cs].
  unfold list_subcommand, mbind, M_bind, gather_params, app_rebase, choose_name, get_resource,
    provide_id, app_list, set_app_resource_name, set_parent_params, add_call. cbn.
  destruct ((p ∪ pp) !! "id") as [v|]; [|done]. cbn.
  destruct (rebase (delete "id" (p ∪ pp))) as [[[]|e] rebased]; [|done]. cbn.
  destruct my_name as [name|]; cbn;
    (destruct (resource_error (Collection pname)); [done|]);
    destruct v; cbn;
    repeat match goal with
      | |- context [get_resource_by_natural_key ?f ?d ?n ?r] =>
          destruct (get_resource_by_natural_key f d n r); cbn
      | |- context [resource_error ?r] => destruct (resource_error r); cbn
      end;
    by rewrite <- ?app_assoc.
Qed.

(** X19: the calls of a dispatch that succeeds, in the order they are made:
    the rebase, with the parameters of the parent overlaid with the
    command's own and without 'id'; then, only when the id given is [None],
    the lookup, with the mapping as the rebase left it and the parent's
    collection; then one listing, with that mapping, on the resource of the
    parent's collection, the parent's id and the command's name.  The rebase
    and the listing have returned.  The id is the one given, or the one the
    resolver found, and is never [None]. *)
Theorem list_subcommand_lists_once (display_fields : list string) (my_name : option string)
    (ctx ctx' : context) :
  list_subcommand get_single_object rebase resource_error list_objects display_fields my_name
    ctx = (Ok (), ctx') →
  let given := params ctx ∪ parent_params ctx in
  let data := delete "id" given in
  let rebased := (rebase data).2 in
  let parent := app_parent_resource_name ctx in
  let lookup := LookupCall rebased (Some (Collection parent)) in
  ∃ parent_resource_id,
    let my_resource :=
      Nested (Collection parent) parent_resource_id (default (info_name ctx) my_name) in
    let listing := ListCall rebased display_fields my_resource in
    parent_resource_id ≠ VNone ∧
    (rebase data).1 = Ok () ∧
    list_objects rebased display_fields my_resource = (Ok (), parent_params ctx') ∧
    ((given !! "id" = Some parent_resource_id ∧
      calls ctx' = calls ctx ++ [Rebase data; listing])
     ∨ (given !! "id" = Some VNone ∧
        get_resource_by_natural_key get_single_object rebased parent
          (Some (Collection parent)) = Ok parent_resource_id ∧
        calls ctx' = calls ctx ++ [Rebase data; lookup; listing])).
Proof.
  rewrite list_subcommand_outcome. intros Hok given data rebased parent lookup.
  fold given data in Hok. fold rebased parent in Hok.
  destruct (given !! "id") as [v|]; [|done].
  destruct (rebase data).1 as [[]|]; [|done].
  destruct (resource_error (Collection parent)); [done|].
  assert (Hfinish : ∀ pid earlier,
    match resource_error (Nested (Collection parent) pid (default (info_name ctx) my_name)) with
    | Some e =>
        (Raise e,
         MkContext rebased (params ctx) (info_name ctx) parent
           (match my_name with Some name => Some name | None => app_resource_name ctx end)
           (calls ctx ++ earlier))
    | None =>
        ((list_objects rebased display_fields
            (Nested (Collection parent) pid (default (info_name ctx) my_name))).1,
         MkContext
           (list_objects rebased display_fields
              (Nested (Collection parent) pid (default (info_name ctx) my_name))).2
           (params ctx) (info_name ctx) parent
           (match my_name with Some name => Some name | None => app_resource_name ctx end)
           (calls ctx ++ earlier ++
              [ListCall rebased display_fields
                 (Nested (Collection parent) pid (default (info_name ctx) my_name))]))
    end = (Ok (), ctx') →
    list_objects rebased display_fields
      (Nested (Collection parent) pid (default (info_name ctx) my_name))
    = (Ok (), parent_params ctx')
    ∧ calls ctx' = calls ctx ++ earlier ++
        [ListCall rebased display_fields
           (Nested (Collection parent) pid (default (info_name ctx) my_name))]).
  { intros pid earlier.
    destruct (resource_error (Nested (Collection parent) pid _)); [done|].
    destruct (list_objects rebased display_fields (Nested (Collection parent) pid _))
      as [[[]|] d]; cbn; [|done].
    by intros [= <-]. }
  destruct v as [| b | z | s | l | d ];
    try (match type of Hok with
         | context [Nested _ ?v _] => exists v
         end; apply Hfinish in Hok as [Hlist Hcalls];
         split_and!; [done|done|done|left; by split]).
  destruct (get_resource_by_natural_key _ _ _ _) as [pid|e] eqn:Hid; [|done].
  apply Hfinish in Hok as [Hlist Hcalls].
  exists pid. split_and!; [|done|done|right; by split_and!].
  intros ->. unfold get_resource_by_natural_key in Hid.
  destruct (get_single_object _ _) as [[obj|]|]; cbn in Hid; [|done..].
  unfold getitem in Hid. destruct (obj !! "id") as [[]|]; by cbn in Hid.
Qed.

(** X20: how a dispatch fails, and what has been called on the application
    by then.  Without an 'id' among the parameters of the parent and of the
    command it raises a [KeyError], the parent's mapping holds the merged
    parameters and no call has been made.  With one: an exception of the
    rebase goes through, and the rebase is the only call made; so does,
    after a rebase that returned, the exception the API client raises for
    the parent's collection; when the id given is [None] and the resolver
    raises, its exception goes through, and the rebase and the lookup are
    the only calls made: nothing is listed; and when an id is there (given,
    or found by the resolver) and the API client has the nested resource, an
    exception of the listing goes through. *)
Theorem list_subcommand_failure (display_fields : list string) (my_name : option string)
    (ctx : context) (e : exn) :
  let given := params ctx ∪ parent_params ctx in
  let data := delete "id" given in
  let rebased := (rebase data).2 in
  let parent := app_parent_resource_name ctx in
  let lookup := LookupCall rebased (Some (Collection parent)) in
  let resolved := get_resource_by_natural_key get_single_object rebased parent
                    (Some (Collection parent)) in
  let outcome :=
    list_subcommand get_single_object rebase resource_error list_objects display_fields
      my_name ctx in
  (given !! "id" = None →
     outcome.1 = Raise (KeyError "id") ∧ calls outcome.2 = calls ctx ∧
     parent_params outcome.2 = given)
  ∧ (∀ v, given !! "id" = Some v →
     ((rebase data).1 = Raise e →
        outcome.1 = Raise e ∧ calls outcome.2 = calls ctx ++ [Rebase data])
     ∧ ((rebase data).1 = Ok () →
        (resource_error (Collection parent) = Some e →
           outcome.1 = Raise e ∧ calls outcome.2 = calls ctx ++ [Rebase data])
        ∧ (resource_error (Collection parent) = None →
           (v = VNone → resolved = Raise e →
              outcome.1 = Raise e ∧ calls outcome.2 = calls ctx ++ [Rebase data; lookup])
           ∧ (∀ parent_resource_id,
                let my_resource :=
                  Nested (Collection parent) parent_resource_id
                    (default (info_name ctx) my_name) in
                (v ≠ VNone ∧ parent_resource_id = v)
                ∨ (v = VNone ∧ resolved = Ok parent_resource_id) →
                resource_error my_resource = None →
                (list_objects rebased display_fields my_resource).1 = Raise e →
                outcome.1 = Raise e ∧
                calls outcome.2 =
                  calls ctx ++ Rebase data :: (match v with VNone => [lookup] | _ => [] end)
                    ++ [ListCall rebased display_fields my_resource])))).
Proof.
  intros given data rebased parent lookup resolved outcome. subst outcome.
  rewrite list_subcommand_outcome. fold given data. fold rebased parent. fold lookup resolved.
  split; [by intros ->|]. intros v ->. split; [by intros ->|]. intros ->.
  split; [by intros ->|]. intros ->. split.
  - intros -> ->. done.
  - intros pid my_resource [[Hv ->]|[-> ->]] Hres Hlist.
    + destruct v; [done|..]; fold my_resource; rewrite Hres; cbn; by rewrite Hlist.
    + fold my_resource. rewrite Hres. cbn. by rewrite Hlist.
Qed.

(** X21: the command's own parameter mapping, its name and the name of the
    parent's resource are never changed by a dispatch; the calls made before
    it are kept; and the application's resource name is changed only to the
    name the caller gives. *)
Theorem list_subcommand_frame (display_fields : list string) (my_name : option string)
    (ctx : context) :
  let ctx' := (list_subcommand get_single_object rebase resource_error list_objects
                 display_fields my_name ctx).2 in
  params ctx' = params ctx
  ∧ info_name ctx' = info_name ctx
  ∧ app_parent_resource_name ctx' = app_parent_resource_name ctx
  ∧ (∃ new, calls ctx' = calls ctx ++ new)
  ∧ (app_resource_name ctx' = app_resource_name ctx
     ∨ ∃ name, my_name = Some name ∧ app_resource_name ctx' = Some name).
Proof.
  intros ctx'. subst ctx'. rewrite list_subcommand_outcome. cbn zeta.
  destruct ((params ctx ∪ parent_params ctx) !! "id") as [v|]; cbn.
  - destruct (rebase _).1; cbn; [|split_and!; [done|done|done|by eexists|by left]].
    destruct (resource_error (Collection _)); cbn;
      [split_and!; [done|done|done|by eexists|];
       (destruct my_name as [name|]; [right; by exists name|by left])|].
    destruct v; cbn;
      repeat match goal with
        | |- context [get_resource_by_natural_key ?f ?d ?n ?r] =>
            destruct (get_resource_by_natural_key f d n r); cbn
        | |- context [resource_error ?r] => destruct (resource_error r); cbn
        end;
      (split_and!; [done|done|done|by eexists|]);
      (destruct my_name as [name|]; [right; by exists name|by left]).
  - split_and!; [done|done|done| |by left]. exists []. by rewrite app_nil_r.
Qed.

End DispatchMore.

Lemma list_subcommand_lists_once_witness :
  let lookup (_ : record) (_ : option resource) : result (option record) :=
    Ok (Some {[ "id" := VInt 5; "cidr" := VStr "10.0.0.0/8" ]}) in
  let merged : record := {[ "cidr" := VStr "10.0.0.0/8"; "limit" := VInt 5 ]} in
  let supernets := Nested (Collection "networks") (VInt 5) "supernets" in
  let ctx' :=
    MkContext merged {[ "limit" := VInt 5 ]} "supernets" "networks" None
      [Rebase merged; LookupCall merged (Some (Collection "networks"));
       ListCall merged ["cidr"] supernets] in
  let given := params nested_listing_ctx ∪ parent_params nested_listing_ctx in
  let data := delete "id" given in
  let rebased := (rebase_returns data).2 in
  let parent := app_parent_resource_name nested_listing_ctx in
  ∃ parent_resource_id,
    let my_resource :=
      Nested (Collection parent) parent_resource_id
        (default (info_name nested_listing_ctx) None) in
    parent_resource_id ≠ VNone ∧
    (rebase_returns data).1 = Ok () ∧
    list_returns rebased ["cidr"] my_resource = (Ok (), parent_params ctx') ∧
    ((given !! "id" = Some parent_resource_id ∧
      calls ctx' =
        calls nested_listing_ctx ++ [Rebase data; ListCall rebased ["cidr"] my_resource])
     ∨ (given !! "id" = Some VNone ∧
        get_resource_by_natural_key lookup rebased parent (Some (Collection parent))
        = Ok parent_resource_id ∧
        calls ctx' =
          calls nested_listing_ctx ++
            [Rebase data; LookupCall rebased (Some (Collection parent));
             ListCall rebased ["cidr"] my_resource])).
Proof.
  intros lookup merged supernets ctx' given data rebased parent.
  exact (list_subcommand_lists_once lookup rebase_returns every_resource list_returns
           ["cidr"] None nested_listing_ctx ctx' list_subcommand_nested).
Defined.

Lemma list_subcommand_failure_witness :
  let given := params nested_listing_ctx ∪ parent_params nested_listing_ctx in
  let data := delete "id" given in
  let outcome :=
    list_subcommand (λ _ _, Ok None) rebase_returns every_resource list_returns ["cidr"] None
      nested_listing_ctx in
  outcome.1 = Raise (UsageError (no_matching "networks")) ∧
  calls outcome.2 =
    calls nested_listing_ctx ++
      [Rebase data;
       LookupCall (rebase_returns data).2
         (Some (Collection (app_parent_resource_name nested_listing_ctx)))].
Proof.
  intros given data outcome.
  destruct (list_subcommand_failure (λ _ _, Ok None) rebase_returns every_resource
              list_returns ["cidr"] None nested_listing_ctx
              (UsageError (no_matching "networks"))) as [_ Hid].
  destruct (Hid VNone ltac:(vm_compute; reflexivity)) as [_ Hrebased].
  destruct (Hrebased eq_refl) as [_ Hparent].
  destruct (Hparent eq_refl) as [Hresolver _].
  apply Hresolver; [reflexivity|vm_compute; reflexivity].
Defined.
